(** * Rotation-aware secrets client (examples/secrets_client.py)

    A shallow embedding of [SecretsClient] and
    [DatabaseConnectionWithRotation], and the properties of the cache, the
    error translation, the rotation snapshot, the credential fallback and the
    retry loop.

    Conventions of the embedding.
    - Python [str] is [string]; [str.lower] and the [in] substring test are
      written out on ASCII letters.
    - [self.cache] is a [gmap string CacheEntry]; the key is the f-string
      [secret_id:version_stage].
    - [time.time()] yields seconds as [Z] (the clock is an input; only the
      difference and its comparison with [cache_ttl] are used).
    - Exceptions are values of [exn]; a method is a function from the state
      of the two objects to a result (a value or a raised exception) and the
      new state.
    - What the code receives from libraries and from the network (boto3,
      json, base64, the clock, the downstream database) is an [Env] of
      oracles, each indexed by the number of earlier calls of its kind, so a
      call may answer differently each time.
    - The state carries a ghost [trace] of the calls that leave the process,
      in the order they are made. *)

From Stdlib Require Import ZArith String Ascii List Lia PrimFloat.
From stdpp Require Import base gmap strings list fin_maps.

Open Scope string_scope.
Open Scope list_scope.

(** ** Python strings *)

(** [c.lower()] on one ASCII character. *)
Definition lower_ascii (c : ascii) : ascii :=
  let n := N_of_ascii c in
  if ((65 <=? n) && (n <=? 90))%N then ascii_of_N (n + 32) else c.

(** [s.lower()] *)
Fixpoint lower (s : string) : string :=
  match s with
  | EmptyString => EmptyString
  | String c s' => String (lower_ascii c) (lower s')
  end.

(** [k.startswith(p)] *)
Definition startswith (k p : string) : bool := String.prefix p k.

(** [pat in s] for strings *)
Fixpoint contains (pat s : string) : bool :=
  String.prefix pat s ||
  match s with
  | EmptyString => false
  | String _ s' => contains pat s'
  end.

(** ** Values *)

(** What [json.loads] can return: [None], [bool], [int], [float], [str],
    [list], [dict]. A payload, a credentials argument and the fields of a
    snapshot are such values; [JNull] is Python's [None]. *)
#[warnings="-register-all"]
Inductive json : Type :=
| JNull
| JBool (b : bool)
| JInt (n : Z)
| JFloat (f : float)
| JStr (s : string)
| JArr (l : list json)
| JObj (d : list (string * json)).

(** Truth value of a Python object, as [and] and [if] test it. *)
Definition truthy (v : json) : bool :=
  match v with
  | JNull => false
  | JBool b => b
  | JInt n => negb (n =? 0)%Z
  | JFloat f => negb (PrimFloat.eqb f 0%float)
  | JStr s => negb (String.eqb s "")
  | JArr l => match l with [] => false | _ => true end
  | JObj d => match d with [] => false | _ => true end
  end.

(** The exceptions the code raises, catches or lets through. *)
Inductive exn : Type :=
| SecretNotFoundError (msg : string)
| SecretRotationInProgressError (msg : string)
| SecretAccessDeniedError (msg : string)
| SecretDecryptionError (msg : string)
| ClientError (code msg : string)        (* botocore.exceptions.ClientError *)
| JSONDecodeError (msg : string)         (* json.loads on a malformed document *)
| KeyError (key : string)
| AttributeError (msg : string)
| PlainException (msg : string)          (* Exception(msg) *)
| OtherException (cls msg : string).     (* any other subclass of Exception *)

(** [str(e)] *)
Definition exn_str (e : exn) : string :=
  match e with
  | SecretNotFoundError m | SecretRotationInProgressError m
  | SecretAccessDeniedError m | SecretDecryptionError m
  | JSONDecodeError m | AttributeError m | PlainException m
  | OtherException _ m => m
  | ClientError code m =>
      "An error occurred (" +:+ code +:+ ") when calling the GetSecretValue operation: " +:+ m
  | KeyError k => "'" +:+ k +:+ "'"
  end.

Inductive Result (A : Type) : Type :=
| Ok (a : A)
| Raise (e : exn).
Arguments Ok {A} a.
Arguments Raise {A} e.

(** ** The remote store and the other collaborators *)

(** The dict [get_secret_value] returns. *)
Record Response : Type := {
  SecretString : option string;
  SecretBinary : option (list Byte.byte);
  VersionId : string
}.

Inductive RemoteOutcome : Type :=
| Responds (r : Response)
| RemoteClientError (code msg : string)   (* raises ClientError *)
| RemoteOtherError (cls msg : string).    (* raises something else, e.g. a connection error *)

Record Env : Type := {
  cache_ttl : Z;                                      (* self.cache_ttl *)
  clock : nat -> Z;                                   (* n-th reading of time.time() *)
  remote : nat -> string -> string -> RemoteOutcome;  (* n-th get_secret_value(SecretId, VersionStage) *)
  json_loads : string -> string + json;               (* inl msg: raises JSONDecodeError(msg) *)
  b64encode : list Byte.byte -> string;               (* base64.b64encode(b).decode() *)
  db_connect : nat -> json -> option exn;             (* n-th downstream connection; Some e: it raises e *)
  run_query : nat -> string -> exn + json             (* n-th execution of the query *)
}.

(** ** State *)

Record CacheEntry : Type := {
  value : json;
  version_id : string;
  timestamp : Z
}.

Inductive Event : Type :=
| EvTime                                   (* time.time() *)
| EvNet (secret_id version_stage : string) (* client.get_secret_value(...) *)
| EvInvalidate (secret_id : option string) (* invalidate_cache(...) *)
| EvConnect                                (* connect() is entered *)
| EvTry (version : string)                 (* _try_connect(_, version) is entered *)
| EvDb (failed : bool)                     (* the downstream connection is opened *)
| EvQuery (failure : option exn).          (* the query is executed; Some e: it raised e *)

Record World : Type := {
  cache : gmap string CacheEntry;   (* SecretsClient.cache *)
  current_credentials : json;       (* DatabaseConnectionWithRotation.current_credentials *)
  trace : list Event
}.

Definition is_time (e : Event) : bool := match e with EvTime => true | _ => false end.
Definition is_net (e : Event) : bool := match e with EvNet _ _ => true | _ => false end.
Definition is_invalidate (e : Event) : bool := match e with EvInvalidate _ => true | _ => false end.
Definition is_connect (e : Event) : bool := match e with EvConnect => true | _ => false end.
Definition is_try (e : Event) : bool := match e with EvTry _ => true | _ => false end.
Definition is_db (e : Event) : bool := match e with EvDb _ => true | _ => false end.
Definition is_query (e : Event) : bool := match e with EvQuery _ => true | _ => false end.

(** Number of events of one kind. *)
Definition count (p : Event -> bool) (tr : list Event) : nat :=
  length (List.filter p tr).

Definition log (ev : Event) (w : World) : World :=
  {| cache := cache w; current_credentials := current_credentials w;
     trace := trace w ++ [ev] |}.

Definition set_cache (c : gmap string CacheEntry) (w : World) : World :=
  {| cache := c; current_credentials := current_credentials w; trace := trace w |}.

Definition set_current_credentials (v : json) (w : World) : World :=
  {| cache := cache w; current_credentials := v; trace := trace w |}.

(** ** Methods as state transformers that may raise *)

Definition M (A : Type) : Type := World -> Result A * World.

Definition ret {A} (a : A) : M A := fun w => (Ok a, w).
Definition raise {A} (e : exn) : M A := fun w => (Raise e, w).
Definition bind {A B} (m : M A) (k : A -> M B) : M B :=
  fun w => match m w with
           | (Ok a, w') => k a w'
           | (Raise e, w') => (Raise e, w')
           end.

(** [try: body except ...: handler]; [handler] re-raises what the clause
    does not catch. *)
Definition try_except {A} (body : M A) (handler : exn -> M A) : M A :=
  fun w => match body w with
           | (Ok a, w') => (Ok a, w')
           | (Raise e, w') => handler e w'
           end.

Notation "x <- m ;; k" := (bind m (fun x => k))
  (at level 100, m at next level, right associativity).
Notation "m ;;; k" := (bind m (fun _ => k))
  (at level 100, right associativity).

Section Client.

Variable env : Env.

(** [time.time()] *)
Definition time_time : M Z :=
  fun w => (Ok (clock env (count is_time (trace w))), log EvTime w).

(** [self.client.get_secret_value(SecretId=.., VersionStage=..)] *)
Definition get_secret_value (secret_id version_stage : string) : M Response :=
  fun w =>
    let w' := log (EvNet secret_id version_stage) w in
    match remote env (count is_net (trace w)) secret_id version_stage with
    | Responds r => (Ok r, w')
    | RemoteClientError code msg => (Raise (ClientError code msg), w')
    | RemoteOtherError cls msg => (Raise (OtherException cls msg), w')
    end.

(** ** SecretsClient *)

Definition cache_key (secret_id version_stage : string) : string :=
  secret_id +:+ ":" +:+ version_stage.

(** Lines 63-68: [Some v] when the method returns the cached [v] at once. *)
Definition check_cache (key : string) (use_cache : bool) : M (option json) :=
  fun w =>
    if use_cache then
      match cache w !! key with
      | Some cached =>
          (now <- time_time ;;
           if (now - timestamp cached <? cache_ttl env)%Z
           then ret (Some (value cached))
           else ret None) w
      | None => (Ok None, w)
      end
    else (Ok None, w).

(** Lines 76-82: the payload of a response. *)
Definition parse_response (r : Response) : Result json :=
  match SecretString r with
  | Some s =>
      match json_loads env s with
      | inr v => Ok v
      | inl msg => Raise (JSONDecodeError msg)
      end
  | None =>
      match SecretBinary r with
      | Some b => Ok (JObj [("binary", JStr (b64encode env b))])
      | None => Raise (KeyError "SecretBinary")
      end
  end.

Definition lift {A} (r : Result A) : M A := fun w => (r, w).

(** Lines 84-89: [self.cache[cache_key] = {...}] *)
Definition cache_put (key : string) (v : json) (vid : string) : M unit :=
  now <- time_time ;;
  fun w =>
    (Ok tt, set_cache (<[key := {| value := v; version_id := vid; timestamp := now |}]> (cache w)) w).

(** Lines 94-118: the [except ClientError as e] clause. *)
Definition translate_error (secret_id : string) (e : exn) : M json :=
  match e with
  | ClientError error_code msg =>
      if String.eqb error_code "ResourceNotFoundException" then
        raise (SecretNotFoundError ("Secret not found: " +:+ secret_id))
      else if String.eqb error_code "InvalidRequestException" then
        if contains "pending" (lower msg) then
          raise (SecretRotationInProgressError
                   ("Secret rotation in progress for " +:+ secret_id))
        else raise e
      else if String.eqb error_code "AccessDeniedException" then
        raise (SecretAccessDeniedError ("Access denied to " +:+ secret_id))
      else if String.eqb error_code "DecryptionFailure" then
        raise (SecretDecryptionError
                 ("Cannot decrypt " +:+ secret_id +:+ " - check KMS permissions"))
      else raise e
  | _ => raise e
  end.

Definition get_secret (secret_id version_stage : string) (use_cache : bool) : M json :=
  let key := cache_key secret_id version_stage in
  hit <- check_cache key use_cache ;;
  match hit with
  | Some v => ret v
  | None =>
      try_except
        (response <- get_secret_value secret_id version_stage ;;
         secret_value <- lift (parse_response response) ;;
         cache_put key secret_value (VersionId response) ;;;
         ret secret_value)
        (translate_error secret_id)
  end.

(** The dict [get_both_versions] returns. *)
Record Snapshot : Type := {
  current : json;
  pending : json;
  is_rotating : bool
}.

Definition get_both_versions (secret_id : string) : M Snapshot :=
  cur <- get_secret secret_id "AWSCURRENT" true ;;
  let result := {| current := cur; pending := JNull; is_rotating := false |} in
  try_except
    (pen <- get_secret secret_id "AWSPENDING" true ;;
     ret {| current := cur; pending := pen; is_rotating := true |})
    (fun e =>
       match e with
       | ClientError _ _ | SecretNotFoundError _ => ret result
       | _ => raise e
       end).

(** [keys_to_remove = [k for k in self.cache if k.startswith(secret_id)]] *)
Definition keys_to_remove (secret_id : string) (c : gmap string CacheEntry) : list string :=
  List.filter (fun k => startswith k secret_id) (map fst (map_to_list c)).

(** [secret_id] is [None] when the argument is omitted; the [if] tests its
    truth value, so the empty string takes the [else] branch too. *)
Definition invalidate_cache (secret_id : option string) : M unit :=
  fun w =>
    let w' := log (EvInvalidate secret_id) w in
    match secret_id with
    | Some (String _ _ as p) =>
        (Ok tt, set_cache (foldr delete (cache w) (keys_to_remove p (cache w))) w')
    | _ => (Ok tt, set_cache ∅ w')
    end.

(** ** DatabaseConnectionWithRotation *)

(** [d.get(key, default)]: only a dict has the method. *)
Definition dict_get (d : json) (key : string) (default : json) : Result json :=
  match d with
  | JObj kvs =>
      Ok (match List.find (fun kv => String.eqb (fst kv) key) kvs with
          | Some kv => snd kv
          | None => default
          end)
  | _ => Raise (AttributeError "object has no attribute 'get'")
  end.

(** The place of the connection in the [try] block of [_try_connect]. The
    source leaves it empty (the [psycopg2.connect] call is a comment): that
    is the environment whose [db_connect] never fails. *)
Definition open_connection (credentials : json) : M unit :=
  fun w =>
    match db_connect env (count is_db (trace w)) credentials with
    | None => (Ok tt, log (EvDb false) w)
    | Some e => (Raise e, log (EvDb true) w)
    end.

Definition _try_connect (credentials : json) (version : string) : M bool :=
  fun w =>
    try_except
      (lift (dict_get credentials "username" (JStr "unknown")) ;;;
       open_connection credentials ;;;
       (fun w1 => (Ok tt, set_current_credentials credentials w1)) ;;;
       ret true)
      (fun _ => ret false)
      (log (EvTry version) w).

Definition connect (secret_id : string) : M bool :=
  fun w =>
    (versions <- get_both_versions secret_id ;;
     ok <- _try_connect (current versions) "CURRENT" ;;
     if ok then ret true
     else if is_rotating versions && truthy (pending versions) then
       ok' <- _try_connect (pending versions) "PENDING" ;;
       if ok' then ret true else ret false
     else ret false)
    (log EvConnect w).

(** The body of the [try] block of [execute_with_retry]. The source runs a
    simulated query that always succeeds: that is the environment whose
    [run_query] always returns. *)
Definition execute (query : string) : M json :=
  fun w =>
    match run_query env (count is_query (trace w)) query with
    | inr v => (Ok v, log (EvQuery None) w)
    | inl e => (Raise e, log (EvQuery (Some e)) w)
    end.

(** [range(n)] *)
Definition range (n : Z) : list Z := map Z.of_nat (seq 0 (Z.to_nat n)).

(** The test of the [except] clause of [execute_with_retry]. *)
Definition is_auth_failure (e : exn) : bool :=
  contains "authentication" (lower (exn_str e)) || contains "password" (lower (exn_str e)).

(** The [for] loop over the attempts that remain, then line 257. *)
Fixpoint retry_loop (secret_id query : string) (max_retries : Z) (attempts : list Z) : M json :=
  match attempts with
  | [] => raise (PlainException "Max retries exceeded")
  | attempt :: rest =>
      try_except (execute query)
        (fun e =>
           if is_auth_failure e then
             invalidate_cache (Some secret_id) ;;;
             if (attempt <? max_retries)%Z then
               connect secret_id ;;;
               retry_loop secret_id query max_retries rest
             else raise e
           else raise e)
  end.

Definition execute_with_retry (secret_id query : string) (max_retries : Z) : M json :=
  retry_loop secret_id query max_retries (range (max_retries + 1)).

End Client.

(** ** Reading the cache without running the method *)

(** The entry [get_secret] would return from the cache in state [w]: present
    and younger than [cache_ttl] at the next clock reading. *)
Definition fresh (env : Env) (key : string) (w : World) : option CacheEntry :=
  match cache w !! key with
  | Some c =>
      if (clock env (count is_time (trace w)) - timestamp c <? cache_ttl env)%Z
      then Some c else None
  | None => None
  end.

(** The state in which [get_secret] reaches the [try] block: the clock has
    been read when the key is cached and [use_cache] is set. *)
Definition after_check (key : string) (use_cache : bool) (w : World) : World :=
  if use_cache then
    match cache w !! key with Some _ => log EvTime w | None => w end
  else w.

(** The events a run adds to the trace. *)
Definition extends (w w' : World) (tr : list Event) : Prop :=
  trace w' = trace w ++ tr.

(** The stages [connect] tried, in order: the versions of the
    [_try_connect] calls in a trace. *)
Fixpoint attempts (tr : list Event) : list string :=
  match tr with
  | [] => []
  | EvTry version :: tr' => version :: attempts tr'
  | _ :: tr' => attempts tr'
  end.

(** Events of the secrets client: the clock and the store. *)
Definition store_event (e : Event) : bool := is_time e || is_net e.

(** Events of a run of [connect] after its entry. *)
Definition connect_event (e : Event) : bool := store_event e || is_try e || is_db e.

(** The outcomes of the executions of the query, in order. *)
Fixpoint queries (tr : list Event) : list (option exn) :=
  match tr with
  | [] => []
  | EvQuery o :: tr' => o :: queries tr'
  | _ :: tr' => queries tr'
  end.

(** An execution of the query that raised an authentication-class error. *)
Definition auth_failed (e : Event) : bool :=
  match e with
  | EvQuery (Some x) => is_auth_failure x
  | _ => false
  end.

(** What [execute_with_retry] does itself: executions of the query,
    invalidations and entries of [connect]. *)
Definition retry_event (e : Event) : bool := is_query e || is_invalidate e || is_connect e.

Definition retry_view (tr : list Event) : list Event := List.filter retry_event tr.

(** The runs of the retry loop for a secret, with [budget] retries left, as
    the sequence of its own events and its result:
    - the query returns: the run returns its value;
    - the query raises an error that is no authentication failure: the run
      raises it at once;
    - the query raises an authentication failure: the cache is invalidated
      for the secret once; with no retry left the run raises that error;
      otherwise [connect] is entered, and either raises, which ends the run,
      or the loop goes on with one retry less. *)
Inductive retry_shape (secret_id : string) : nat -> list Event -> Result json -> Prop :=
| shape_returns budget v :
    retry_shape secret_id budget [EvQuery None] (Ok v)
| shape_surfaces budget e :
    is_auth_failure e = false ->
    retry_shape secret_id budget [EvQuery (Some e)] (Raise e)
| shape_exhausted e :
    is_auth_failure e = true ->
    retry_shape secret_id 0 [EvQuery (Some e); EvInvalidate (Some secret_id)] (Raise e)
| shape_connect_raises budget e e' :
    is_auth_failure e = true ->
    retry_shape secret_id (S budget)
      [EvQuery (Some e); EvInvalidate (Some secret_id); EvConnect] (Raise e')
| shape_retries budget e tr r :
    is_auth_failure e = true ->
    retry_shape secret_id budget tr r ->
    retry_shape secret_id (S budget)
      (EvQuery (Some e) :: EvInvalidate (Some secret_id) :: EvConnect :: tr) r.

(** The environment of the source as it is written: the connection and
    the query are simulated and cannot fail. *)
Definition simulated (env : Env) : Prop :=
  (forall n credentials, db_connect env n credentials = None) /\
  (forall n query, run_query env n query = inr (JObj [("result", JStr "success")])).

Definition is_dict (v : json) : bool :=
  match v with JObj _ => true | _ => false end.

(** ** Constructors and the demonstration *)

(** [SecretsClient(...)] and [DatabaseConnectionWithRotation(secret_id)]:
    an empty cache (the connection builds a client of its own), and no
    credentials in use. [history] is what the process has done so far. *)
Definition new_connection (history : list Event) : World :=
  {| cache := ∅; current_credentials := JNull; trace := history |}.

(** [len(v)] *)
Definition py_len (v : json) : Result nat :=
  match v with
  | JStr s => Ok (String.length s)
  | JArr l => Ok (length l)
  | JObj d => Ok (length d)
  | _ => Raise (OtherException "TypeError" "object has no len()")
  end.

Definition demo_secret_id : string := "prod/database/credentials".

(** Lines 271-292 of [demo]: the steps on its own client. The f-strings
    call [secret.get] four times and [len] once. *)
Definition demo_client_steps (env : Env) : M unit :=
  secret <- get_secret env demo_secret_id "AWSCURRENT" true ;;
  lift (dict_get secret "username" JNull) ;;;
  lift (dict_get secret "host" JNull) ;;;
  lift (dict_get secret "dbname" JNull) ;;;
  password <- lift (dict_get secret "password" (JStr "")) ;;
  lift (py_len password) ;;;
  get_both_versions env demo_secret_id ;;;
  get_secret env demo_secret_id "AWSCURRENT" true ;;;
  ret tt.

(** [demo()]: the final state of its client and, when line 296 is reached,
    of the connection it builds there. Every exception of the [try] block is
    caught and printed, the result of [connect] is dropped. Both clients are
    built with the default [cache_ttl], so one environment serves both. *)
Definition demo (env : Env) (history : list Event) : World * option World :=
  match demo_client_steps env (new_connection history) with
  | (Ok _, client) =>
      (client, Some (snd (connect env demo_secret_id (new_connection (trace client)))))
  | (Raise _, client) => (client, None)
  end.

(** The runs of the retry loop with [budget] retries left, from state to
    result and final state, in the words of the specification:
    - the query returns: the run returns its value;
    - the query raises an error that is no authentication failure: the run
      raises it at once;
    - the query raises an authentication failure: the cache is invalidated
      for the secret; with no retry left the run raises that error;
      otherwise [connect] is run in the state the invalidation left; if it
      raises, the run raises the same; if it returns, the run is the run
      with one retry less from the state [connect] left. *)
Inductive retry_run (env : Env) (secret_id query : string) :
  nat -> World -> Result json -> World -> Prop :=
| run_returns budget w v :
    run_query env (count is_query (trace w)) query = inr v ->
    retry_run env secret_id query budget w (Ok v) (log (EvQuery None) w)
| run_surfaces budget w e :
    run_query env (count is_query (trace w)) query = inl e ->
    is_auth_failure e = false ->
    retry_run env secret_id query budget w (Raise e) (log (EvQuery (Some e)) w)
| run_exhausted w e :
    run_query env (count is_query (trace w)) query = inl e ->
    is_auth_failure e = true ->
    retry_run env secret_id query 0 w (Raise e)
      (snd (invalidate_cache (Some secret_id) (log (EvQuery (Some e)) w)))
| run_connect_raises budget w e e' w3 :
    run_query env (count is_query (trace w)) query = inl e ->
    is_auth_failure e = true ->
    connect env secret_id
      (snd (invalidate_cache (Some secret_id) (log (EvQuery (Some e)) w)))
    = (Raise e', w3) ->
    retry_run env secret_id query (S budget) w (Raise e') w3
| run_retries budget w e c w3 r w' :
    run_query env (count is_query (trace w)) query = inl e ->
    is_auth_failure e = true ->
    connect env secret_id
      (snd (invalidate_cache (Some secret_id) (log (EvQuery (Some e)) w)))
    = (Ok c, w3) ->
    retry_run env secret_id query budget w3 r w' ->
    retry_run env secret_id query (S budget) w r w'.

(** Whether a string has a colon, the separator of the cache key. *)
Fixpoint has_colon (s : string) : bool :=
  match s with
  | EmptyString => false
  | String c s' => Ascii.eqb c ":" || has_colon s'
  end.

(** ** The closed taxonomy of the specification *)

Inductive ErrorKind : Type :=
| NotFound | RotationInProgress | AccessDenied | DecryptionFailure | Unknown.

(** The kind of a raised exception: the four typed failures, [Unknown] for
    the store's own error when it passes through, and nothing for an
    exception that is no failure of the store. *)
Definition kind_of (e : exn) : option ErrorKind :=
  match e with
  | SecretNotFoundError _ => Some NotFound
  | SecretRotationInProgressError _ => Some RotationInProgress
  | SecretAccessDeniedError _ => Some AccessDenied
  | SecretDecryptionError _ => Some DecryptionFailure
  | ClientError _ _ => Some Unknown
  | _ => None
  end.

(** The mapping of section 6 of the specification, on the store's error code
    and message. *)
Definition spec_kind (code msg : string) : ErrorKind :=
  if String.eqb code "ResourceNotFoundException" then NotFound
  else if String.eqb code "InvalidRequestException" then
    if contains "pending" (lower msg) then RotationInProgress else Unknown
  else if String.eqb code "AccessDeniedException" then AccessDenied
  else if String.eqb code "DecryptionFailure" then DecryptionFailure
  else Unknown.

(** The failures of the PENDING probe after which a snapshot is still
    returned, by kind. *)
Definition tolerated (e : exn) : bool :=
  match kind_of e with
  | Some NotFound | Some Unknown => true
  | _ => false
  end.

(** ** Sample environments *)

(** A parser that agrees with [json.loads] on the few documents the examples
    use, and rejects the rest. *)
Definition sample_loads (s : string) : string + json :=
  if String.eqb s "null" then inr JNull
  else if String.eqb s "{}" then inr (JObj [])
  else if String.eqb s "[1]" then inr (JArr [JInt 1])
  else if String.eqb s "7" then inr (JInt 7)
  else inl "Expecting value: line 1 column 1 (char 0)".

Definition text_response (s vid : string) : RemoteOutcome :=
  Responds {| SecretString := Some s; SecretBinary := None; VersionId := vid |}.

Definition binary_response (b : list Byte.byte) (vid : string) : RemoteOutcome :=
  Responds {| SecretString := None; SecretBinary := Some b; VersionId := vid |}.

(** An environment around a given store, with the source's simulated
    connection and query (they never fail), a clock that advances by
    [tick] seconds per reading and the default [cache_ttl] of 300. *)
Definition sample_env (tick : Z) (store : nat -> string -> string -> RemoteOutcome) : Env :=
  {| cache_ttl := 300;
     clock := fun n => (1000 + tick * Z.of_nat n)%Z;
     remote := store;
     json_loads := sample_loads;
     b64encode := fun _ => "AQID";
     db_connect := fun _ _ => None;
     run_query := fun _ _ => inr (JObj [("result", JStr "success")]) |}.

Definition w_init : World :=
  {| cache := ∅; current_credentials := JNull; trace := [] |}.

(** A store that answers by stage only: [cur] for AWSCURRENT, [pen] for
    every other stage. *)
Definition store_of (cur pen : RemoteOutcome) : nat -> string -> string -> RemoteOutcome :=
  fun _ _ stage => if String.eqb stage "AWSCURRENT" then cur else pen.

Definition no_pending : RemoteOutcome :=
  RemoteClientError "ResourceNotFoundException" "Secrets Manager can't find the specified secret value for staging label: AWSPENDING".

Definition denied : RemoteOutcome :=
  RemoteClientError "AccessDeniedException" "User is not authorized to perform: secretsmanager:GetSecretValue".

(** The payload of a binary secret whose bytes are 1, 2, 3. *)
Definition binary_secret (vid : string) : RemoteOutcome :=
  binary_response [Byte.x01; Byte.x02; Byte.x03] vid.

Definition binary_payload : json := JObj [("binary", JStr "AQID")].

(** Section 8: "s3" has a CURRENT version and no PENDING one; the clock
    advances by one second per reading. *)
Definition env_s3 : Env := sample_env 1 (store_of (binary_secret "v1") no_pending).

(** Section 8: "s1" has a CURRENT version and no PENDING one. *)
Definition env_s1 : Env := sample_env 1 (store_of (binary_secret "v1") no_pending).

(** The PENDING version of the secret is the JSON document [null]. *)
Definition env_null_pending : Env :=
  sample_env 1 (store_of (binary_secret "v1") (text_response "null" "v2")).

(** The caller may read CURRENT but not PENDING. *)
Definition env_pending_denied : Env :=
  sample_env 1 (store_of (binary_secret "v1") denied).

(** A cache holding both versions of the secret "db". *)
Definition w_db : World :=
  {| cache :=
       <[cache_key "db" "AWSCURRENT" :=
           {| value := binary_payload; version_id := "v1"; timestamp := 1000 |}]>
       (<[cache_key "db" "AWSPENDING" :=
           {| value := binary_payload; version_id := "v2"; timestamp := 1001 |}]> ∅);
     current_credentials := JNull;
     trace := [] |}.

(** A cache holding the CURRENT version of the secret "db2". *)
Definition w_db2 : World :=
  set_cache (<[cache_key "db2" "AWSCURRENT" :=
                 {| value := binary_payload; version_id := "v1"; timestamp := 1000 |}]> ∅)
            w_init.


(** A database session whose first [fails] executions of the query raise
    a password error; the store holds a CURRENT version only. *)
Definition env_auth (fails : nat) : Env :=
  {| cache_ttl := 300;
     clock := fun n => (1000 + Z.of_nat n)%Z;
     remote := store_of (binary_secret "v1") no_pending;
     json_loads := sample_loads;
     b64encode := fun _ => "AQID";
     db_connect := fun _ _ => None;
     run_query := fun n _ =>
       if (n <? fails)%nat
       then inl (OtherException "OperationalError" "FATAL: password authentication failed for user app")
       else inr (JObj [("result", JStr "success")]) |}.

(** ** Basic facts *)

(** Closes an equation between two bracketings of one trace. *)
Ltac same_trace :=
  simpl; repeat first [rewrite <- app_assoc | rewrite <- app_comm_cons]; reflexivity.

Lemma count_app p tr1 tr2 : count p (tr1 ++ tr2) = (count p tr1 + count p tr2)%nat.
Proof. unfold count. by rewrite List.filter_app, length_app. Qed.

Lemma count_snoc p tr e :
  count p (tr ++ [e]) = (count p tr + if p e then 1 else 0)%nat.
Proof. rewrite count_app. unfold count. simpl. by destruct (p e). Qed.

Lemma extends_refl w : extends w w [].
Proof. unfold extends. by rewrite app_nil_r. Qed.

Lemma extends_trans w1 w2 w3 tr1 tr2 :
  extends w1 w2 tr1 -> extends w2 w3 tr2 -> extends w1 w3 (tr1 ++ tr2).
Proof. unfold extends. intros H1 H2. by rewrite H2, H1, app_assoc. Qed.

Lemma extends_log w ev : extends w (log ev w) [ev].
Proof. reflexivity. Qed.

Lemma check_cache_fresh env key w :
  check_cache env key true w =
  (Ok (value <$> fresh env key w), after_check key true w).
Proof.
  unfold check_cache, fresh, after_check, bind, time_time, ret.
  destruct (cache w !! key) as [c|]; [|done]. simpl.
  by destruct (_ <? _)%Z.
Qed.

Lemma check_cache_off env key w :
  check_cache env key false w = (Ok None, w).
Proof. reflexivity. Qed.

Lemma after_check_cache key uc w : cache (after_check key uc w) = cache w.
Proof. unfold after_check. destruct uc; [|done]. by destruct (cache w !! key). Qed.

Lemma after_check_net key uc w :
  count is_net (trace (after_check key uc w)) = count is_net (trace w).
Proof.
  unfold after_check. destruct uc; [|done].
  destruct (cache w !! key); [|done]. simpl. rewrite count_snoc. simpl. lia.
Qed.

Lemma translate_error_raises id e w :
  exists e', translate_error id e w = (Raise e', w).
Proof.
  unfold translate_error, raise.
  destruct e; eauto.
  repeat (match goal with |- context [if ?b then _ else _] => destruct b end); eauto.
Qed.

Lemma translate_error_other id e w :
  (forall code msg, e <> ClientError code msg) ->
  translate_error id e w = (Raise e, w).
Proof. intros H. destruct e; try reflexivity. by destruct (H code msg). Qed.

Lemma parse_response_raises env r e :
  parse_response env r = Raise e ->
  (exists msg, e = JSONDecodeError msg) \/ e = KeyError "SecretBinary".
Proof.
  unfold parse_response.
  destruct (SecretString r) as [s|].
  - destruct (json_loads env s); intros [= <-]; eauto.
  - destruct (SecretBinary r); intros [= <-]; eauto.
Qed.

(** ** Keys and pairs *)

Lemma append_same_length_inj (a b x y : string) :
  String.length a = String.length b -> a +:+ x = b +:+ y -> a = b /\ x = y.
Proof.
  revert b. induction a as [|c a IH]; intros [|d b]; simpl; try discriminate.
  - auto.
  - intros [= Hlen] [= -> Happ]. destruct (IH b Hlen Happ) as [-> ->]. auto.
Qed.

Lemma length_append (a b : string) :
  String.length (a +:+ b) = (String.length a + String.length b)%nat.
Proof. induction a as [|c a IH]; simpl; [reflexivity | by rewrite IH]. Qed.

(** X16: for the two stages the code uses, AWSCURRENT and AWSPENDING, the
    key determines the identifier and the stage: two different pairs never
    share a cache entry. *)
Lemma cache_key_inj id1 stage1 id2 stage2 :
  stage1 = "AWSCURRENT" \/ stage1 = "AWSPENDING" ->
  stage2 = "AWSCURRENT" \/ stage2 = "AWSPENDING" ->
  cache_key id1 stage1 = cache_key id2 stage2 ->
  id1 = id2 /\ stage1 = stage2.
Proof.
  unfold cache_key. intros H1 H2 Hkey.
  assert (Hlen : String.length id1 = String.length id2).
  { apply (f_equal String.length) in Hkey. rewrite !length_append in Hkey.
    destruct H1 as [-> | ->], H2 as [-> | ->]; simpl in Hkey; lia. }
  destruct (append_same_length_inj _ _ _ _ Hlen Hkey) as [-> Hs].
  split; [reflexivity|]. by injection Hs.
Qed.

(** With other stage names two pairs may share a key. *)
Example cache_key_collision : cache_key "a" "b:c" = cache_key "a:b" "c".
Proof. reflexivity. Qed.

(** ** The two paths of [get_secret] *)

(** The cache answers: the clock is read once and nothing else happens. *)
Lemma get_secret_hit env id stage w c :
  fresh env (cache_key id stage) w = Some c ->
  get_secret env id stage true w = (Ok (value c), log EvTime w).
Proof.
  intros Hf. unfold get_secret, bind. rewrite check_cache_fresh, Hf. simpl.
  unfold after_check. unfold fresh in Hf.
  by destruct (cache w !! cache_key id stage).
Qed.

(** The cache does not answer: the store is called once, and the outcome of
    the method is decided by the store's answer. *)
Lemma get_secret_miss env id stage uc w :
  uc = false \/ fresh env (cache_key id stage) w = None ->
  let key := cache_key id stage in
  let w1 := log (EvNet id stage) (after_check key uc w) in
  get_secret env id stage uc w =
  match remote env (count is_net (trace w)) id stage with
  | Responds r =>
      match parse_response env r with
      | Ok v =>
          (Ok v,
           set_cache (<[key := {| value := v; version_id := VersionId r;
                                  timestamp := clock env (count is_time (trace w1)) |}]>
                        (cache w))
                     (log EvTime w1))
      | Raise e => (Raise e, w1)
      end
  | RemoteClientError code msg => translate_error id (ClientError code msg) w1
  | RemoteOtherError cls msg => (Raise (OtherException cls msg), w1)
  end.
Proof.
  intros Hm key w1.
  assert (Hc : check_cache env key uc w = (Ok None, after_check key uc w)).
  { destruct Hm as [-> | Hf]; [apply check_cache_off|].
    destruct uc; [|apply check_cache_off].
    rewrite check_cache_fresh. fold key in Hf. by rewrite Hf. }
  unfold get_secret, bind at 1. fold key. rewrite Hc.
  unfold try_except, bind, get_secret_value.
  rewrite after_check_net. fold w1.
  destruct (remote env _ id stage) as [r | code msg | cls msg]; [| done | done].
  unfold lift. destruct (parse_response env r) as [v | e] eqn:Hp.
  - unfold cache_put, bind, time_time, ret. simpl.
    unfold set_cache, log. simpl. subst w1. simpl.
    by rewrite after_check_cache.
  - apply translate_error_other. intros code msg ->.
    apply parse_response_raises in Hp as [[m Hm'] | Hk]; discriminate.
Qed.

Lemma fresh_cases env key w :
  (exists c, fresh env key w = Some c) \/ fresh env key w = None.
Proof. destruct (fresh env key w); eauto. Qed.

(** ** Failure leaves the cache alone *)

(** C7: whenever [get_secret] raises, whatever the path and the exception,
    the cache of the final state is the cache of the initial state: no key is
    added, removed or changed. *)
Theorem get_secret_failure_keeps_cache env id stage uc w :
  forall e w', get_secret env id stage uc w = (Raise e, w') -> cache w' = cache w.
Proof.
  intros e w'.
  destruct uc.
  - destruct (fresh_cases env (cache_key id stage) w) as [[c Hc] | Hn].
    + rewrite (get_secret_hit _ _ _ _ _ Hc). discriminate.
    + rewrite get_secret_miss by eauto. cbv zeta.
      destruct (remote env _ id stage) as [r | code msg | cls msg].
      * destruct (parse_response env r); intros [= <- <-].
        exact (after_check_cache _ true w).
      * destruct (translate_error_raises id (ClientError code msg)
                    (log (EvNet id stage) (after_check (cache_key id stage) true w)))
          as [e' ->].
        intros [= <- <-]. exact (after_check_cache _ true w).
      * intros [= <- <-]. exact (after_check_cache _ true w).
  - rewrite get_secret_miss by eauto. cbv zeta.
    destruct (remote env _ id stage) as [r | code msg | cls msg].
    + destruct (parse_response env r); intros [= <- <-]; reflexivity.
    + destruct (translate_error_raises id (ClientError code msg)
                  (log (EvNet id stage) (after_check (cache_key id stage) false w)))
        as [e' ->].
      intros [= <- <-]. reflexivity.
    + intros [= <- <-]. reflexivity.
Qed.

Lemma C7_witness :
  exists e w',
    get_secret (sample_env 1 (store_of denied denied)) "s4" "AWSCURRENT" true w_init
    = (Raise e, w') /\ cache w' = cache w_init.
Proof.
  eexists _, _. split; [reflexivity|].
  exact (get_secret_failure_keeps_cache (sample_env 1 (store_of denied denied))
           "s4" "AWSCURRENT" true w_init _ _ eq_refl).
Defined.

(** ** Translation of the store's errors *)

(** C4: when the call reaches the store and the store fails, [get_secret]
    raises, and the exception is of the kind the specification's table gives
    for the error code and message: NotFound for ResourceNotFoundException,
    RotationInProgress for InvalidRequestException with "pending" in the
    lower-cased message, AccessDenied, DecryptionFailure, and otherwise the
    original [ClientError] itself; a failure that is no [ClientError] passes
    through as it is. *)
Theorem get_secret_error_taxonomy env id stage uc w :
  uc = false \/ fresh env (cache_key id stage) w = None ->
  match remote env (count is_net (trace w)) id stage with
  | Responds _ => True
  | RemoteClientError code msg =>
      exists e w',
        get_secret env id stage uc w = (Raise e, w') /\
        kind_of e = Some (spec_kind code msg) /\
        (spec_kind code msg = Unknown -> e = ClientError code msg)
  | RemoteOtherError cls msg =>
      exists w', get_secret env id stage uc w = (Raise (OtherException cls msg), w')
  end.
Proof.
  intros Hm. rewrite get_secret_miss by exact Hm. cbv zeta.
  destruct (remote env _ id stage) as [r | code msg | cls msg]; [done | | eauto].
  unfold translate_error, spec_kind, raise.
  repeat (match goal with |- context [if ?b then _ else _] => destruct b end);
    eexists _, _; (split; [reflexivity|]); (split; [reflexivity|]);
    first [discriminate | reflexivity].
Qed.

Lemma C4_witness :
  exists e w',
    get_secret (sample_env 1 (store_of denied denied)) "s4" "AWSCURRENT" true w_init
    = (Raise e, w') /\
    kind_of e = Some AccessDenied.
Proof.
  destruct (get_secret_error_taxonomy (sample_env 1 (store_of denied denied))
              "s4" "AWSCURRENT" true w_init (or_intror eq_refl))
    as (e & w' & Hrun & Hkind & _).
  exists e, w'. split; [exact Hrun | exact Hkind].
Defined.

(** ** A payload that is not JSON *)

(** C10: when the call reaches the store, the store answers with a
    [SecretString] and [json.loads] rejects it, [get_secret] raises the
    parser's [JSONDecodeError] as it is: it has no kind in the taxonomy (it
    is none of the typed failures and not the store's error), and the cache
    is the one before the call. *)
Theorem get_secret_invalid_json env id stage uc w r s msg :
  uc = false \/ fresh env (cache_key id stage) w = None ->
  remote env (count is_net (trace w)) id stage = Responds r ->
  SecretString r = Some s ->
  json_loads env s = inl msg ->
  exists w',
    get_secret env id stage uc w = (Raise (JSONDecodeError msg), w') /\
    kind_of (JSONDecodeError msg) = None /\
    cache w' = cache w /\
    cache w' !! cache_key id stage = cache w !! cache_key id stage.
Proof.
  intros Hm Hr Hs Hj. rewrite get_secret_miss by exact Hm. cbv zeta.
  rewrite Hr. unfold parse_response. rewrite Hs, Hj.
  eexists. split; [reflexivity|]. split; [reflexivity|].
  assert (Hc : cache (log (EvNet id stage) (after_check (cache_key id stage) uc w)) = cache w)
    by exact (after_check_cache _ uc w).
  split; [exact Hc | by rewrite Hc].
Qed.

Lemma C10_witness :
  exists w',
    get_secret (sample_env 1 (store_of (text_response "not json" "v1") no_pending))
      "s5" "AWSCURRENT" true w_init
    = (Raise (JSONDecodeError "Expecting value: line 1 column 1 (char 0)"), w') /\
    cache w' = cache w_init.
Proof.
  destruct (get_secret_invalid_json
              (sample_env 1 (store_of (text_response "not json" "v1") no_pending))
              "s5" "AWSCURRENT" true w_init _ "not json" _
              (or_intror eq_refl) eq_refl eq_refl eq_refl)
    as (w' & Hrun & _ & Hc & _).
  exists w'. split; [exact Hrun | exact Hc].
Defined.

Example spec_kind_pending :
  spec_kind "InvalidRequestException"
    "You can't perform this operation on secret version with staging label AWSPENDING"
  = RotationInProgress.
Proof. reflexivity. Qed.

Example spec_kind_invalid_other :
  spec_kind "InvalidRequestException" "The secret is marked for deletion" = Unknown.
Proof. reflexivity. Qed.

(** ** Time to live *)

(** A successful call leaves the value it returns in the cache, under the
    key of its identifier and stage. *)
Lemma get_secret_caches env id stage uc w v w' :
  get_secret env id stage uc w = (Ok v, w') ->
  exists c, cache w' !! cache_key id stage = Some c /\ value c = v.
Proof.
  assert (Hmiss : uc = false \/ fresh env (cache_key id stage) w = None ->
                  get_secret env id stage uc w = (Ok v, w') ->
                  exists c, cache w' !! cache_key id stage = Some c /\ value c = v).
  { intros Hm. rewrite get_secret_miss by exact Hm. cbv zeta.
    destruct (remote env _ id stage) as [r | code msg | cls msg].
    - destruct (parse_response env r) as [v0|]; [|discriminate].
      intros [= -> <-]. eexists. split; [apply lookup_insert_eq | reflexivity].
    - destruct (translate_error_raises id (ClientError code msg)
                  (log (EvNet id stage) (after_check (cache_key id stage) uc w)))
        as [e' ->]. discriminate.
    - discriminate. }
  destruct uc; [|eauto].
  destruct (fresh_cases env (cache_key id stage) w) as [[c Hc] | Hn]; [|eauto].
  rewrite (get_secret_hit _ _ _ _ _ Hc). intros [= <- <-].
  exists c. split; [|reflexivity]. unfold fresh in Hc. simpl.
  destruct (cache w !! cache_key id stage) as [c0|]; [|discriminate].
  by destruct (_ <? _)%Z; simplify_eq.
Qed.

(** C1: for a call with [use_cache], in a state [w] where the next clock
    reading is [now]:
    - if the key holds a record [c] with [now - timestamp c < cache_ttl], the
      call returns [value c], reads the clock and does nothing else: no call
      to the store, the cache as it was; this is the state after any
      successful fetch of the same identifier and stage, whose returned value
      is the cached one;
    - if the key holds no record, or one with [cache_ttl <= now - timestamp c],
      the store is called once for this identifier and stage, and when the
      call returns [v] the cache is the old one with the key rebound to the
      record of [v], the response's version and the time read after the
      fetch. *)
Theorem get_secret_cache_ttl env id stage w :
  let key := cache_key id stage in
  let now := clock env (count is_time (trace w)) in
  (forall c, cache w !! key = Some c -> (now - timestamp c < cache_ttl env)%Z ->
     get_secret env id stage true w = (Ok (value c), log EvTime w) /\
     count is_net (trace (log EvTime w)) = count is_net (trace w) /\
     cache (log EvTime w) = cache w) /\
  (forall uc w0 v, get_secret env id stage uc w0 = (Ok v, w) ->
     exists c, cache w !! key = Some c /\ value c = v /\
       ((now - timestamp c < cache_ttl env)%Z ->
        get_secret env id stage true w = (Ok v, log EvTime w))) /\
  (cache w !! key = None \/
   (exists c, cache w !! key = Some c /\ (cache_ttl env <= now - timestamp c)%Z) ->
   exists tr, extends w (snd (get_secret env id stage true w)) tr /\
     count is_net tr = 1%nat /\ In (EvNet id stage) tr /\
     forall v, fst (get_secret env id stage true w) = Ok v ->
       exists r,
         remote env (count is_net (trace w)) id stage = Responds r /\
         parse_response env r = Ok v /\
         cache (snd (get_secret env id stage true w)) =
           <[key := {| value := v; version_id := VersionId r;
                       timestamp := clock env (count is_time (trace (after_check key true w))) |}]>
             (cache w)).
Proof.
  intros key now.
  assert (Hhit : forall c, cache w !! key = Some c ->
                   (now - timestamp c < cache_ttl env)%Z ->
                   get_secret env id stage true w = (Ok (value c), log EvTime w)).
  { intros c Hc Hlt. apply get_secret_hit. unfold fresh. fold key. rewrite Hc.
    fold now. by apply Z.ltb_lt in Hlt as ->. }
  split; [|split].
  - intros c Hc Hlt. split; [by apply Hhit|]. split; [|reflexivity].
    simpl. rewrite count_snoc. simpl. lia.
  - intros uc w0 v Hrun.
    destruct (get_secret_caches _ _ _ _ _ _ _ Hrun) as (c & Hc & Hv).
    exists c. split; [exact Hc|]. split; [exact Hv|].
    intros Hlt. rewrite <- Hv. by apply Hhit.
  - intros Hold.
    assert (Hf : fresh env key w = None).
    { unfold fresh. fold now. destruct Hold as [-> | (c & -> & Hge)]; [done|].
      by apply Z.ltb_ge in Hge as ->. }
    rewrite get_secret_miss by (right; exact Hf). cbv zeta. fold key.
    set (w0 := after_check key true w).
    assert (H0 : exists t0, extends w w0 t0 /\ count is_net t0 = 0%nat /\
                            (forall e, In e t0 -> e = EvTime)).
    { unfold w0, after_check. destruct (cache w !! key).
      - exists [EvTime]. split; [apply extends_log|]. split; [reflexivity|].
        intros e [<- | []]. reflexivity.
      - exists []. split; [apply extends_refl|]. split; [reflexivity|]. intros e []. }
    destruct H0 as (t0 & Hext0 & Hn0 & _).
    destruct (remote env _ id stage) as [r | code msg | cls msg] eqn:Hr.
    + destruct (parse_response env r) as [v|e] eqn:Hp.
      * exists (t0 ++ [EvNet id stage; EvTime]). split.
        { unfold extends in *. simpl. rewrite Hext0. by rewrite <- ?app_assoc. }
        split; [rewrite count_app, Hn0; reflexivity|].
        split; [apply in_or_app; right; left; reflexivity|].
        intros v' [= <-]. exists r. split; [reflexivity|]. split; [exact Hp|].
        simpl. rewrite count_snoc. simpl. by rewrite Nat.add_0_r.
      * exists (t0 ++ [EvNet id stage]). split.
        { unfold extends in *. simpl. rewrite Hext0. by rewrite <- ?app_assoc. }
        split; [rewrite count_app, Hn0; reflexivity|].
        split; [apply in_or_app; right; left; reflexivity|].
        intros v' [=].
    + destruct (translate_error_raises id (ClientError code msg)
                  (log (EvNet id stage) w0)) as [e' ->].
      exists (t0 ++ [EvNet id stage]). split.
      { unfold extends in *. simpl. rewrite Hext0. by rewrite <- ?app_assoc. }
      split; [rewrite count_app, Hn0; reflexivity|].
      split; [apply in_or_app; right; left; reflexivity|].
      intros v' [=].
    + exists (t0 ++ [EvNet id stage]). split.
      { unfold extends in *. simpl. rewrite Hext0. by rewrite <- ?app_assoc. }
      split; [rewrite count_app, Hn0; reflexivity|].
      split; [apply in_or_app; right; left; reflexivity|].
      intros v' [=].
Qed.

Lemma C1_witness :
  let w1 := snd (get_secret env_s3 "s3" "AWSCURRENT" true w_init) in
  fst (get_secret env_s3 "s3" "AWSCURRENT" true w_init) = Ok binary_payload /\
  get_secret env_s3 "s3" "AWSCURRENT" true w1 = (Ok binary_payload, log EvTime w1) /\
  count is_net (trace (log EvTime w1)) = 1%nat.
Proof.
  intros w1.
  pose proof (get_secret_cache_ttl env_s3 "s3" "AWSCURRENT" w1) as H.
  cbv zeta in H. destruct H as [Hhit _].
  destruct (Hhit {| value := binary_payload; version_id := "v1"; timestamp := 1000 |}
              eq_refl eq_refl) as (Hrun & Hnet & _).
  split; [reflexivity|]. split; [exact Hrun|].
  rewrite Hnet. reflexivity.
Defined.

(** ** The rotation snapshot *)

(** [get_both_versions] in terms of its two fetches. *)
Lemma get_both_versions_run env id w :
  get_both_versions env id w =
  match get_secret env id "AWSCURRENT" true w with
  | (Raise e, w1) => (Raise e, w1)
  | (Ok cur, w1) =>
      match get_secret env id "AWSPENDING" true w1 with
      | (Ok pen, w2) => (Ok {| current := cur; pending := pen; is_rotating := true |}, w2)
      | (Raise e, w2) =>
          if tolerated e
          then (Ok {| current := cur; pending := JNull; is_rotating := false |}, w2)
          else (Raise e, w2)
      end
  end.
Proof.
  unfold get_both_versions, bind at 1.
  destruct (get_secret env id "AWSCURRENT" true w) as [[cur | e] w1]; [|reflexivity].
  unfold try_except, bind.
  destruct (get_secret env id "AWSPENDING" true w1) as [[pen | e] w2]; [reflexivity|].
  by destruct e.
Qed.

(** The snapshot in terms of the PENDING fetch: when the CURRENT fetch
    returns, every snapshot has [is_rotating] set exactly when the PENDING
    fetch returns, and then [pending] is the value fetched; a [pending] other
    than [None] implies [is_rotating]; and a PENDING fetch that raises
    [SecretNotFoundError] yields the snapshot with [pending = None] and
    [is_rotating = False]. *)
Lemma snapshot_is_rotating env id w cur w1 :
  get_secret env id "AWSCURRENT" true w = (Ok cur, w1) ->
  (forall snap w', get_both_versions env id w = (Ok snap, w') ->
     current snap = cur /\
     (is_rotating snap = true <->
      exists pen, fst (get_secret env id "AWSPENDING" true w1) = Ok pen) /\
     (is_rotating snap = true ->
      fst (get_secret env id "AWSPENDING" true w1) = Ok (pending snap)) /\
     (pending snap <> JNull -> is_rotating snap = true)) /\
  (forall msg w2,
     get_secret env id "AWSPENDING" true w1 = (Raise (SecretNotFoundError msg), w2) ->
     get_both_versions env id w =
     (Ok {| current := cur; pending := JNull; is_rotating := false |}, w2)).
Proof.
  intros Hcur. rewrite get_both_versions_run, Hcur. split.
  - intros snap w'.
    destruct (get_secret env id "AWSPENDING" true w1) as [[pen | e] w2].
    + intros [= <- <-]. simpl. repeat split; eauto.
    + destruct (tolerated e); [|discriminate].
      intros [= <- <-]. simpl. repeat split; try done.
      intros [pen [=]].
  - intros msg w2 ->. reflexivity.
Qed.

(** Section 8: "s1" has no PENDING version, the snapshot is not rotating. *)
Example snapshot_without_pending :
  fst (get_both_versions env_s1 "s1" w_init)
  = Ok {| current := binary_payload; pending := JNull; is_rotating := false |}.
Proof.
  destruct (snapshot_is_rotating env_s1 "s1" w_init binary_payload _ eq_refl) as [_ Hnf].
  rewrite (Hnf _ _ eq_refl). reflexivity.
Qed.

(** As long as the PENDING fetch returns what [get_secret] documents, a
    dict, the three readings of the claim agree: [is_rotating] holds exactly
    when the PENDING fetch returns, and exactly when the [pending] field is
    not [None]. *)
Lemma snapshot_is_rotating_for_dicts env id w cur w1 :
  get_secret env id "AWSCURRENT" true w = (Ok cur, w1) ->
  (forall pen, fst (get_secret env id "AWSPENDING" true w1) = Ok pen -> is_dict pen = true) ->
  forall snap w', get_both_versions env id w = (Ok snap, w') ->
    (is_rotating snap = true <->
     exists pen, fst (get_secret env id "AWSPENDING" true w1) = Ok pen) /\
    (is_rotating snap = true <-> pending snap <> JNull).
Proof.
  intros Hcur Hdict snap w' Hsnap.
  destruct (snapshot_is_rotating env id w cur w1 Hcur) as [Hall _].
  destruct (Hall snap w' Hsnap) as (_ & Hiff & Hval & Hpop).
  split; [exact Hiff|]. split; [|exact Hpop].
  intros Hrot. specialize (Hdict _ (Hval Hrot)).
  by destruct (pending snap).
Qed.

(** C2: the claim fails where [get_secret] breaks its own contract. The
    PENDING version of "s2" is the JSON document [null]: the PENDING fetch
    succeeds and returns [None], no dict; the snapshot has
    [is_rotating = True] and [pending = None], so [is_rotating] holds
    although the [pending] field is not populated. *)
Lemma snapshot_null_pending :
  fst (get_secret env_null_pending "s2" "AWSPENDING" true
         (snd (get_secret env_null_pending "s2" "AWSCURRENT" true w_init))) = Ok JNull /\
  is_dict JNull = false /\
  fst (get_both_versions env_null_pending "s2" w_init)
  = Ok {| current := binary_payload; pending := JNull; is_rotating := true |}.
Proof. repeat split; reflexivity. Qed.

(** C5, as the code has it: [get_both_versions] raises what the CURRENT
    fetch raises; when CURRENT returns, a PENDING failure of kind NotFound or
    Unknown (the store's error passed through) gives the snapshot without
    pending version, and every other PENDING failure (RotationInProgress,
    AccessDenied, DecryptionFailure, or an exception that is no store
    failure) is raised by [get_both_versions]. *)
Theorem snapshot_failure_propagation env id w :
  let '(r1, w1) := get_secret env id "AWSCURRENT" true w in
  let '(r2, w2) := get_secret env id "AWSPENDING" true w1 in
  match r1 with
  | Raise e => get_both_versions env id w = (Raise e, w1)
  | Ok cur =>
      match r2 with
      | Ok pen =>
          get_both_versions env id w =
          (Ok {| current := cur; pending := pen; is_rotating := true |}, w2)
      | Raise e =>
          match kind_of e with
          | Some NotFound | Some Unknown =>
              get_both_versions env id w =
              (Ok {| current := cur; pending := JNull; is_rotating := false |}, w2)
          | Some RotationInProgress | Some AccessDenied | Some DecryptionFailure | None =>
              get_both_versions env id w = (Raise e, w2)
          end
      end
  end.
Proof.
  rewrite get_both_versions_run.
  destruct (get_secret env id "AWSCURRENT" true w) as [[cur | e] w1].
  - destruct (get_secret env id "AWSPENDING" true w1) as [[pen | e] w2]; [reflexivity|].
    unfold tolerated. by destruct (kind_of e) as [[]|].
  - by destruct (get_secret env id "AWSPENDING" true w1).
Qed.

(** CURRENT is fetched, the PENDING probe is refused with
    AccessDeniedException: no snapshot, the typed failure is raised. *)
Lemma C5_counterexample :
  fst (get_secret env_pending_denied "s" "AWSCURRENT" true w_init) = Ok binary_payload /\
  fst (get_both_versions env_pending_denied "s" w_init)
  = Raise (SecretAccessDeniedError "Access denied to s").
Proof. split; reflexivity. Qed.

(** ** Invalidation *)

Lemma startswith_nil k : startswith k "" = true.
Proof. unfold startswith. by destruct k. Qed.

Lemma startswith_cons k a p b :
  startswith (String b k) (String a p) = true <-> a = b /\ startswith k p = true.
Proof.
  unfold startswith. simpl. destruct (ascii_dec a b) as [-> | Hne].
  - tauto.
  - split; [discriminate | tauto].
Qed.

Lemma startswith_empty p : startswith "" p = true <-> p = "".
Proof. unfold startswith. destruct p; simpl; split; congruence. Qed.

(** A key starts with [p] when its identifier does, or when [p] is the
    identifier, the colon and the beginning of the stage. *)
Lemma startswith_cache_key id stage p :
  startswith (cache_key id stage) p = true <->
  startswith id p = true \/
  exists s', p = id +:+ ":" +:+ s' /\ startswith stage s' = true.
Proof.
  unfold cache_key. revert p. induction id as [|c id IH]; intros p.
  - destruct p as [|a p].
    + rewrite !startswith_nil. tauto.
    + change ("" +:+ ":" +:+ stage) with (String ":" stage).
      rewrite startswith_cons, startswith_empty. split.
      * intros [-> Hp]. right. exists p. split; [reflexivity | exact Hp].
      * intros [[=] | (s' & [= -> ->] & Hp)]. split; [reflexivity | exact Hp].
  - destruct p as [|a p].
    + rewrite !startswith_nil. tauto.
    + change (String c id +:+ ":" +:+ stage) with (String c (id +:+ ":" +:+ stage)).
      rewrite !startswith_cons, IH. split.
      * intros [-> [Hp | (s' & -> & Hs)]]; [left; done|].
        right. exists s'. split; [reflexivity | exact Hs].
      * intros [[-> Hp] | (s' & [= -> ->] & Hs)]; [split; [done | left; done]|].
        split; [reflexivity|]. right. exists s'. split; [reflexivity | exact Hs].
Qed.

Lemma elem_of_keys_to_remove p (c : gmap string CacheEntry) k :
  k ∈ keys_to_remove p c <-> startswith k p = true /\ is_Some (c !! k).
Proof.
  unfold keys_to_remove. rewrite list_elem_of_In, List.filter_In, <- list_elem_of_In.
  change (map fst (map_to_list c)) with (fst <$> map_to_list c).
  rewrite list_elem_of_fmap. split.
  - intros [([k' e] & -> & Hin) Hp]. split; [exact Hp|].
    apply elem_of_map_to_list in Hin. simpl. eauto.
  - intros [Hp [e He]]. split; [|exact Hp].
    exists (k, e). split; [reflexivity|]. by apply elem_of_map_to_list.
Qed.

(** What is left after the deletions. *)
Lemma lookup_invalidated p (c : gmap string CacheEntry) k :
  foldr delete c (keys_to_remove p c) !! k =
  if startswith k p then None else c !! k.
Proof.
  destruct (startswith k p) eqn:Hp.
  - destruct (c !! k) as [e|] eqn:He.
    + apply lookup_foldr_delete. apply elem_of_keys_to_remove. eauto.
    + rewrite lookup_foldr_delete_not_elem_of; [exact He|].
      rewrite elem_of_keys_to_remove. intros [_ [e' He']]. congruence.
  - apply lookup_foldr_delete_not_elem_of.
    rewrite elem_of_keys_to_remove. intros [Hp' _]. congruence.
Qed.

(** What the code does for every argument: with a non-empty argument [p]
    the cache loses exactly the keys whose text [identifier:stage] starts
    with [p] and keeps every other binding; these are the keys of the
    identifiers that start with [p] ("db" also removes the keys of "db2")
    and, besides, the keys whose identifier, colon and beginning of the stage
    spell [p]; with no argument, or the empty one, the cache is emptied. *)
Lemma invalidate_cache_prefix (w : World) :
  (forall a p' k,
     cache (snd (invalidate_cache (Some (String a p')) w)) !! k =
     if startswith k (String a p') then None else cache w !! k) /\
  (forall p id stage,
     startswith (cache_key id stage) p = true <->
     startswith id p = true \/
     exists s', p = id +:+ ":" +:+ s' /\ startswith stage s' = true) /\
  cache (snd (invalidate_cache None w)) = ∅ /\
  cache (snd (invalidate_cache (Some "") w)) = ∅.
Proof.
  split; [|split; [|split]]; try reflexivity.
  - intros a p' k. apply lookup_invalidated.
  - intros p id stage. apply startswith_cache_key.
Qed.

(** "db" removes the entries of "db2" as well. *)
Example invalidate_db_removes_db2 :
  cache (snd (invalidate_cache (Some "db") w_db2)) !! cache_key "db2" "AWSCURRENT" = None.
Proof.
  destruct (invalidate_cache_prefix w_db2) as (Hrm & _).
  rewrite Hrm. reflexivity.
Qed.

Lemma has_colon_append a b : has_colon (a +:+ ":" +:+ b) = true.
Proof.
  induction a as [|c a IH]; [reflexivity|].
  simpl. rewrite IH. apply orb_true_r.
Qed.

(** For an argument without a colon, as the name of a secret is, the claim
    holds as it is written: the entry of an identifier and stage is removed
    exactly when the identifier starts with the argument, and kept as it was
    otherwise. *)
Lemma invalidate_cache_without_colon a p w id stage :
  has_colon (String a p) = false ->
  cache (snd (invalidate_cache (Some (String a p)) w)) !! cache_key id stage =
  if startswith id (String a p) then None else cache w !! cache_key id stage.
Proof.
  intros Hnc. cbn [invalidate_cache snd set_cache cache]. rewrite lookup_invalidated.
  destruct (startswith (cache_key id stage) (String a p)) eqn:Hk.
  - apply startswith_cache_key in Hk as [-> | (s' & Hp & _)]; [reflexivity|].
    rewrite Hp, has_colon_append in Hnc. discriminate.
  - destruct (startswith id (String a p)) eqn:Hi; [|reflexivity].
    assert (startswith (cache_key id stage) (String a p) = true)
      by (apply startswith_cache_key; by left).
    congruence.
Qed.

(** C9: the claim fails where the prefix test on the joined key reaches
    past the identifier. The argument is "db:AWSCURRENT": the identifier "db"
    does not start with it, yet the CURRENT entry of "db" is removed, and its
    PENDING entry is kept. *)
Lemma invalidate_cache_whole_key :
  startswith "db" "db:AWSCURRENT" = false /\
  is_Some (cache w_db !! cache_key "db" "AWSCURRENT") /\
  cache (snd (invalidate_cache (Some "db:AWSCURRENT") w_db)) !! cache_key "db" "AWSCURRENT"
  = None /\
  is_Some (cache (snd (invalidate_cache (Some "db:AWSCURRENT") w_db))
           !! cache_key "db" "AWSPENDING").
Proof.
  split; [reflexivity|]. split; [vm_compute; eauto|].
  split; [vm_compute; reflexivity|]. vm_compute. eauto.
Qed.

(** ** What each method adds to the trace *)

Lemma count_none p q tr :
  Forall (fun e => q e = true) tr -> (forall e, q e = true -> p e = false) ->
  count p tr = 0%nat.
Proof.
  intros Hall Hq. induction Hall as [|e tr He _ IH]; [reflexivity|].
  unfold count in *. simpl. by rewrite (Hq e He).
Qed.



Lemma after_check_extends key uc w :
  exists tr, extends w (after_check key uc w) tr /\
             Forall (fun e => store_event e = true) tr.
Proof.
  unfold after_check. destruct uc; [|exists []; split; [apply extends_refl | constructor]].
  destruct (cache w !! key).
  - exists [EvTime]. split; [apply extends_log | by repeat constructor].
  - exists []. split; [apply extends_refl | constructor].
Qed.

Lemma get_secret_extends env id stage uc w :
  exists tr, extends w (snd (get_secret env id stage uc w)) tr /\
             Forall (fun e => store_event e = true) tr.
Proof.
  assert (Hmiss : uc = false \/ fresh env (cache_key id stage) w = None ->
            exists tr, extends w (snd (get_secret env id stage uc w)) tr /\
                       Forall (fun e => store_event e = true) tr).
  { intros Hm. rewrite get_secret_miss by exact Hm. cbv zeta.
    destruct (after_check_extends (cache_key id stage) uc w) as (t0 & Hext & Hall).
    set (w0 := after_check (cache_key id stage) uc w) in *.
    assert (H1 : extends w (log (EvNet id stage) w0) (t0 ++ [EvNet id stage]))
      by (eapply extends_trans; [exact Hext | apply extends_log]).
    assert (A1 : Forall (fun e => store_event e = true) (t0 ++ [EvNet id stage]))
      by (apply Forall_app; split; [exact Hall | by repeat constructor]).
    destruct (remote env _ id stage) as [r | code msg | cls msg].
    - destruct (parse_response env r) as [v | e]; [|eauto].
      exists ((t0 ++ [EvNet id stage]) ++ [EvTime]). split.
      + eapply extends_trans; [exact H1|]. reflexivity.
      + apply Forall_app. split; [exact A1 | by repeat constructor].
    - destruct (translate_error_raises id (ClientError code msg) (log (EvNet id stage) w0))
        as [e' ->]. eauto.
    - eauto. }
  destruct uc; [|eauto].
  destruct (fresh_cases env (cache_key id stage) w) as [[c Hc] | Hn]; [|eauto].
  rewrite (get_secret_hit _ _ _ _ _ Hc). exists [EvTime].
  split; [apply extends_log | by repeat constructor].
Qed.

Lemma get_both_versions_extends env id w :
  exists tr, extends w (snd (get_both_versions env id w)) tr /\
             Forall (fun e => store_event e = true) tr.
Proof.
  rewrite get_both_versions_run.
  destruct (get_secret_extends env id "AWSCURRENT" true w) as (t1 & H1 & A1).
  destruct (get_secret env id "AWSCURRENT" true w) as [[cur | e] w1]; [|eauto].
  destruct (get_secret_extends env id "AWSPENDING" true w1) as (t2 & H2 & A2).
  simpl in H1.
  assert (Hcomp : forall w2, extends w1 w2 t2 ->
            extends w w2 (t1 ++ t2) /\ Forall (fun e => store_event e = true) (t1 ++ t2)).
  { intros w2 Hw2. split; [eapply extends_trans; eauto | apply Forall_app; eauto]. }
  destruct (get_secret env id "AWSPENDING" true w1) as [[pen | e] w2]; simpl in H2.
  - exists (t1 ++ t2). by apply Hcomp.
  - exists (t1 ++ t2). destruct (tolerated e); by apply Hcomp.
Qed.

(** [_try_connect] always returns: it announces the attempt, opens the
    connection at most once, keeps the cache, and on success records the
    credentials it used. *)
Lemma try_connect_run env credentials version w :
  exists b w' t,
    _try_connect env credentials version w = (Ok b, w') /\
    extends w w' (EvTry version :: t) /\
    Forall (fun e => is_db e = true) t /\
    cache w' = cache w /\
    (b = true -> current_credentials w' = credentials).
Proof.
  unfold _try_connect, try_except, bind, lift, ret, open_connection.
  destruct (dict_get credentials "username" (JStr "unknown")) as [u | e].
  - simpl. destruct (db_connect env _ credentials) as [e|].
    + exists false, (log (EvDb true) (log (EvTry version) w)), [EvDb true].
      split; [reflexivity|]. split; [unfold extends; simpl; by rewrite <- app_assoc|].
      split; [by repeat constructor|]. split; [reflexivity | discriminate].
    + eexists true, _, [EvDb false].
      split; [reflexivity|]. split; [unfold extends; simpl; by rewrite <- app_assoc|].
      split; [by repeat constructor|]. split; reflexivity.
  - exists false, (log (EvTry version) w), [].
    split; [reflexivity|]. split; [reflexivity|].
    split; [constructor|]. split; [reflexivity | discriminate].
Qed.


(** ** The credential fallback *)

(** A snapshot that cannot be taken ends [connect] before any attempt. *)
Lemma connect_without_snapshot env id w e w1 :
  get_both_versions env id (log EvConnect w) = (Raise e, w1) ->
  connect env id w = (Raise e, w1).
Proof. intros H. unfold connect, bind. by rewrite H. Qed.



(** With the database of the source, which accepts every connection, a
    CURRENT payload that is no dict still fails ([.get] does not exist), and
    the PENDING payload is used. *)
Example connect_simulated_fallback :
  fst (connect (sample_env 1 (store_of (text_response "[1]" "v1") (binary_secret "v2")))
         "s2" w_init) = Ok true /\
  current_credentials
    (snd (connect (sample_env 1 (store_of (text_response "[1]" "v1") (binary_secret "v2")))
            "s2" w_init)) = binary_payload.
Proof. split; reflexivity. Qed.

(** No PENDING version: one attempt, and [False] when it fails. *)
Example connect_not_rotating :
  fst (connect (sample_env 1 (store_of (text_response "[1]" "v1") no_pending)) "s1" w_init)
  = Ok false /\
  attempts (trace (snd (connect (sample_env 1 (store_of (text_response "[1]" "v1") no_pending))
                          "s1" w_init))) = ["CURRENT"].
Proof. split; reflexivity. Qed.

(** ** The retry loop *)

Lemma retry_view_app tr1 tr2 : retry_view (tr1 ++ tr2) = retry_view tr1 ++ retry_view tr2.
Proof. apply List.filter_app. Qed.

Lemma retry_view_none q tr :
  Forall (fun e => q e = true) tr -> (forall e, q e = true -> retry_event e = false) ->
  retry_view tr = [].
Proof.
  intros Hall Hq. induction Hall as [|e tr He _ IH]; [reflexivity|].
  unfold retry_view in *. simpl. by rewrite (Hq e He).
Qed.

Lemma queries_view tr : queries (retry_view tr) = queries tr.
Proof.
  induction tr as [|e tr IH]; [reflexivity|].
  unfold retry_view in *. destruct e; simpl; by rewrite ?IH.
Qed.

Lemma count_view p tr :
  (forall e, p e = true -> retry_event e = true) ->
  count p (retry_view tr) = count p tr.
Proof.
  intros Hp. induction tr as [|e tr IH]; [reflexivity|].
  unfold retry_view, count in *. simpl.
  destruct (retry_event e) eqn:Hr; simpl.
  - destruct (p e); simpl; by rewrite IH.
  - destruct (p e) eqn:Hpe; [|exact IH]. apply Hp in Hpe. congruence.
Qed.

Lemma connect_extends env id w :
  exists tr, extends w (snd (connect env id w)) (EvConnect :: tr) /\
             Forall (fun e => connect_event e = true) tr.
Proof.
  assert (Hstore : forall tr, Forall (fun e => store_event e = true) tr ->
                              Forall (fun e => connect_event e = true) tr).
  { intros tr Htr. eapply Forall_impl; [exact Htr|].
    intros e He. unfold connect_event. by rewrite He. }
  assert (Htry : forall v t, Forall (fun e => is_db e = true) t ->
                             Forall (fun e => connect_event e = true) (EvTry v :: t)).
  { intros v t Ht. constructor; [reflexivity|]. eapply Forall_impl; [exact Ht|].
    intros e He. unfold connect_event. rewrite He. by rewrite orb_true_r. }
  destruct (get_both_versions_extends env id (log EvConnect w)) as (t0 & H0 & A0).
  destruct (get_both_versions env id (log EvConnect w)) as [[snap | e] w1] eqn:Hsnap.
  - destruct (try_connect_run env (current snap) "CURRENT" w1)
      as (c' & w2' & t1 & Hrun1 & Hext1 & Hdb1 & _ & _).
    unfold connect, bind. rewrite Hsnap, Hrun1. simpl in H0.
    assert (E1 : extends w w2' (EvConnect :: t0 ++ EvTry "CURRENT" :: t1)).
    { unfold extends in *. rewrite Hext1, H0. same_trace. }
    assert (A1 : Forall (fun e => connect_event e = true) (t0 ++ EvTry "CURRENT" :: t1))
      by (apply Forall_app; split; auto).
    destruct c'; [eauto|].
    destruct (is_rotating snap && truthy (pending snap)); [|eauto].
    destruct (try_connect_run env (pending snap) "PENDING" w2')
      as (b2 & w3 & t2 & Hrun2 & Hext2 & Hdb2 & _ & _).
    rewrite Hrun2.
    exists ((t0 ++ EvTry "CURRENT" :: t1) ++ EvTry "PENDING" :: t2). split.
    + replace (snd _) with w3 by (by destruct b2).
      unfold extends in *. rewrite Hext2, E1. same_trace.
    + apply Forall_app. split; auto.
  - rewrite (connect_without_snapshot _ _ _ _ _ Hsnap). simpl in *.
    exists t0. split; [|auto].
    unfold extends in *. rewrite H0. same_trace.
Qed.

Lemma invalidate_cache_run o w :
  exists w', invalidate_cache o w = (Ok tt, w') /\ extends w w' [EvInvalidate o].
Proof.
  unfold invalidate_cache. destruct o as [[|a p]|]; eexists; split; reflexivity.
Qed.

Lemma retry_loop_cons env id q max attempt rest w :
  retry_loop env id q max (attempt :: rest) w =
  match run_query env (count is_query (trace w)) q with
  | inr v => (Ok v, log (EvQuery None) w)
  | inl e =>
      let w1 := log (EvQuery (Some e)) w in
      if is_auth_failure e then
        let w2 := snd (invalidate_cache (Some id) w1) in
        if (attempt <? max)%Z then
          match connect env id w2 with
          | (Ok _, w3) => retry_loop env id q max rest w3
          | (Raise e', w3) => (Raise e', w3)
          end
        else (Raise e, w2)
      else (Raise e, w1)
  end.
Proof.
  cbn [retry_loop]. unfold try_except, execute.
  destruct (run_query env _ q) as [e | v]; [|reflexivity].
  cbv zeta. destruct (is_auth_failure e); [|reflexivity].
  unfold bind at 1.
  destruct (invalidate_cache_run (Some id) (log (EvQuery (Some e)) w)) as (w2 & -> & _).
  simpl snd. destruct (attempt <? max)%Z; [|reflexivity].
  unfold bind. by destruct (connect env id w2) as [[b | e'] w3].
Qed.

(** The loop over the attempts [a, a+1, ..., max_retries] follows
    [retry_shape] with as many retries left as attempts after the first. *)
Lemma retry_loop_shape env id q max n :
  forall a w,
    (Z.of_nat (a + S n) = max + 1)%Z ->
    exists tr,
      extends w (snd (retry_loop env id q max (map Z.of_nat (seq a (S n))) w)) tr /\
      retry_shape id n (retry_view tr)
        (fst (retry_loop env id q max (map Z.of_nat (seq a (S n))) w)).
Proof.
  induction n as [|n IH]; intros a w Ha.
  - change (map Z.of_nat (seq a 1)) with [Z.of_nat a].
    rewrite retry_loop_cons.
    destruct (run_query env _ q) as [e | v].
    + cbv zeta. destruct (is_auth_failure e) eqn:Hauth.
      * replace (Z.of_nat a <? max)%Z with false by (symmetry; apply Z.ltb_ge; lia).
        destruct (invalidate_cache_run (Some id) (log (EvQuery (Some e)) w))
          as (w2 & -> & Hext).
        exists [EvQuery (Some e); EvInvalidate (Some id)]. split.
        { unfold extends in *. simpl in *. rewrite Hext. same_trace. }
        by apply shape_exhausted.
      * exists [EvQuery (Some e)]. split; [reflexivity|]. by apply shape_surfaces.
    + exists [EvQuery None]. split; [reflexivity|]. apply shape_returns.
  - change (map Z.of_nat (seq a (S (S n))))
      with (Z.of_nat a :: map Z.of_nat (seq (S a) (S n))).
    rewrite retry_loop_cons.
    destruct (run_query env _ q) as [e | v].
    + cbv zeta. destruct (is_auth_failure e) eqn:Hauth.
      * replace (Z.of_nat a <? max)%Z with true by (symmetry; apply Z.ltb_lt; lia).
        destruct (invalidate_cache_run (Some id) (log (EvQuery (Some e)) w))
          as (w2 & -> & Hext2).
        simpl snd.
        destruct (connect_extends env id w2) as (tc & Hextc & Hallc).
        assert (Hview : retry_view tc = []).
        { eapply retry_view_none; [exact Hallc|]. by intros []. }
        destruct (connect env id w2) as [[b | e'] w3]; simpl in Hextc.
        -- destruct (IH (S a) w3) as (tr & Hext & Hshape); [lia|].
           exists ([EvQuery (Some e); EvInvalidate (Some id)] ++ (EvConnect :: tc) ++ tr).
           split.
           { unfold extends in *. simpl in *. rewrite Hext, Hextc, Hext2. same_trace. }
           rewrite !retry_view_app.
           change (retry_view (EvConnect :: tc)) with (EvConnect :: retry_view tc).
           rewrite Hview. by apply shape_retries.
        -- exists ([EvQuery (Some e); EvInvalidate (Some id)] ++ (EvConnect :: tc)).
           split.
           { unfold extends in *. simpl in *. rewrite Hextc, Hext2. same_trace. }
           rewrite !retry_view_app.
           change (retry_view (EvConnect :: tc)) with (EvConnect :: retry_view tc).
           rewrite Hview. by apply shape_connect_raises.
      * exists [EvQuery (Some e)]. split; [reflexivity|]. by apply shape_surfaces.
    + exists [EvQuery None]. split; [reflexivity|]. apply shape_returns.
Qed.

Lemma execute_with_retry_shape env id q max w :
  (0 <= max)%Z ->
  exists tr,
    extends w (snd (execute_with_retry env id q max w)) tr /\
    retry_shape id (Z.to_nat max) (retry_view tr) (fst (execute_with_retry env id q max w)).
Proof.
  intros Hmax. unfold execute_with_retry, range.
  replace (Z.to_nat (max + 1)) with (S (Z.to_nat max)) by lia.
  apply retry_loop_shape. lia.
Qed.

(** X17: with a negative [max_retries] the loop is empty: the query is
    never executed, nothing is invalidated or connected, and line 257 raises
    [Exception("Max retries exceeded")]. *)
Lemma execute_with_retry_negative env id q max w :
  (max < 0)%Z ->
  execute_with_retry env id q max w = (Raise (PlainException "Max retries exceeded"), w).
Proof.
  intros Hmax. unfold execute_with_retry, range.
  replace (Z.to_nat (max + 1)) with 0%nat by lia. reflexivity.
Qed.

Lemma retry_shape_counts id budget v r :
  retry_shape id budget v r ->
  count is_invalidate v = count auth_failed v /\
  (forall o, In (EvInvalidate o) v -> o = Some id) /\
  (count is_connect v <= count auth_failed v)%nat.
Proof.
  induction 1 as [b v | b e He | e He | b e e' He | b e tr r He Hs (IH1 & IH2 & IH3)].
  - split; [reflexivity|]. split; [|reflexivity]. intros o [[=] | []].
  - split; [|split].
    + unfold count. simpl. by rewrite He.
    + intros o [[=] | []].
    + unfold count. simpl. rewrite He. simpl. lia.
  - split; [|split].
    + unfold count. simpl. by rewrite He.
    + intros o [[=] | [[= <-] | []]]. reflexivity.
    + unfold count. simpl. rewrite He. simpl. lia.
  - split; [|split].
    + unfold count. simpl. by rewrite He.
    + intros o [[=] | [[= <-] | [[=] | []]]]. reflexivity.
    + unfold count. simpl. by rewrite He.
  - split; [|split].
    + unfold count in *. simpl. rewrite He. simpl. by rewrite IH1.
    + intros o [[=] | [[= <-] | [[=] | Hin]]]; [reflexivity | by apply IH2].
    + unfold count in *. simpl. rewrite He. simpl. lia.
Qed.

Lemma retry_shape_bound id budget v r :
  retry_shape id budget v r ->
  (length (queries v) <= S budget)%nat /\
  (length (queries v) = S budget ->
   forall e, r = Raise e -> last (queries v) = Some (Some e)).
Proof.
  induction 1 as [b v | b e He | e He | b e e' He | b e tr r He Hs [IH1 IH2]]; simpl.
  - split; [lia|]. intros _ e [=].
  - split; [lia|]. by intros _ e0 [= <-].
  - split; [lia|]. by intros _ e0 [= <-].
  - split; [lia|]. intros [=].
  - split; [lia|]. intros [= Hlen] e0 Hr.
    specialize (IH2 Hlen e0 Hr).
    destruct (queries tr) as [|o os]; [discriminate|]. exact IH2.
Qed.

(** The loop follows [retry_run]. *)
Lemma retry_loop_run env id q max n :
  forall a w,
    (Z.of_nat (a + S n) = max + 1)%Z ->
    retry_run env id q n w
      (fst (retry_loop env id q max (map Z.of_nat (seq a (S n))) w))
      (snd (retry_loop env id q max (map Z.of_nat (seq a (S n))) w)).
Proof.
  induction n as [|n IH]; intros a w Ha.
  - change (map Z.of_nat (seq a 1)) with [Z.of_nat a].
    rewrite retry_loop_cons.
    destruct (run_query env _ q) as [e | v] eqn:Hq; [|by apply run_returns].
    cbv zeta. destruct (is_auth_failure e) eqn:Hauth; [|by apply run_surfaces].
    replace (Z.of_nat a <? max)%Z with false by (symmetry; apply Z.ltb_ge; lia).
    by apply run_exhausted.
  - change (map Z.of_nat (seq a (S (S n))))
      with (Z.of_nat a :: map Z.of_nat (seq (S a) (S n))).
    rewrite retry_loop_cons.
    destruct (run_query env _ q) as [e | v] eqn:Hq; [|by apply run_returns].
    cbv zeta. destruct (is_auth_failure e) eqn:Hauth; [|by apply run_surfaces].
    replace (Z.of_nat a <? max)%Z with true by (symmetry; apply Z.ltb_lt; lia).
    destruct (connect env id _) as [[c | e'] w3] eqn:Hconn.
    + eapply run_retries; [exact Hq | exact Hauth | exact Hconn |].
      apply IH. lia.
    + eapply run_connect_raises; [exact Hq | exact Hauth | exact Hconn].
Qed.

(** A run starts by executing the query. *)
Lemma retry_run_first_event env id q budget w r w' :
  retry_run env id q budget w r w' ->
  exists o tr, trace w' = trace w ++ EvQuery o :: tr.
Proof.
  assert (Hinv : forall e, exists w2,
            snd (invalidate_cache (Some id) (log (EvQuery (Some e)) w)) = w2 /\
            trace w2 = trace w ++ [EvQuery (Some e); EvInvalidate (Some id)]).
  { intros e.
    destruct (invalidate_cache_run (Some id) (log (EvQuery (Some e)) w)) as (w2 & -> & Hext).
    exists w2. split; [reflexivity|]. unfold extends in Hext. rewrite Hext. same_trace. }
  destruct 1 as [b w v Hq | b w e Hq Ha | w e Hq Ha | b w e e' w3 Hq Ha Hc
                | b w e c w3 r w' Hq Ha Hc Hrest].
  - by exists None, [].
  - by exists (Some e), [].
  - destruct (Hinv e) as (w2 & -> & ->). by exists (Some e), [EvInvalidate (Some id)].
  - destruct (Hinv e) as (w2 & Hw2 & Ht2). rewrite Hw2 in Hc.
    destruct (connect_extends env id w2) as (tc & Hextc & _).
    rewrite Hc in Hextc. cbn [snd] in Hextc. unfold extends in Hextc.
    exists (Some e), (EvInvalidate (Some id) :: EvConnect :: tc).
    rewrite Hextc, Ht2. same_trace.
  - destruct (Hinv e) as (w2 & Hw2 & Ht2). rewrite Hw2 in Hc.
    destruct (connect_extends env id w2) as (tc & Hextc & _).
    rewrite Hc in Hextc. cbn [snd] in Hextc. unfold extends in Hextc.
    assert (Hmono : exists tr', trace w' = trace w3 ++ tr').
    { clear -Hrest. induction Hrest as [b w v Hq | b w e Hq Ha | w e Hq Ha
                                        | b w e e' w3 Hq Ha Hc
                                        | b w e c w3 r w' Hq Ha Hc Hrest [t IH]].
      - by exists [EvQuery None].
      - by exists [EvQuery (Some e)].
      - destruct (invalidate_cache_run (Some id) (log (EvQuery (Some e)) w))
          as (w2 & Hrun & Hext).
        rewrite Hrun. cbn [snd]. unfold extends in Hext. rewrite Hext.
        exists [EvQuery (Some e); EvInvalidate (Some id)]. same_trace.
      - destruct (invalidate_cache_run (Some id) (log (EvQuery (Some e)) w))
          as (w2 & Hrun & Hext).
        rewrite Hrun in Hc. cbn [snd] in Hc.
        destruct (connect_extends env id w2) as (tc & Hextc & _).
        rewrite Hc in Hextc. cbn [snd] in Hextc. unfold extends in *.
        exists ([EvQuery (Some e); EvInvalidate (Some id)] ++ EvConnect :: tc).
        rewrite Hextc, Hext. same_trace.
      - destruct (invalidate_cache_run (Some id) (log (EvQuery (Some e)) w))
          as (w2 & Hrun & Hext).
        rewrite Hrun in Hc. cbn [snd] in Hc.
        destruct (connect_extends env id w2) as (tc & Hextc & _).
        rewrite Hc in Hextc. cbn [snd] in Hextc. unfold extends in *.
        exists (([EvQuery (Some e); EvInvalidate (Some id)] ++ EvConnect :: tc) ++ t).
        rewrite IH, Hextc, Hext. same_trace. }
    destruct Hmono as (tr' & Htr').
    exists (Some e), ((EvInvalidate (Some id) :: EvConnect :: tc) ++ tr').
    rewrite Htr', Hextc, Ht2. same_trace.
Qed.

(** Only the distance of the attempt number to [max_retries] matters. *)
Lemma retry_loop_shift env id q max max' n :
  forall a a' w,
    (Z.of_nat a - max = Z.of_nat a' - max')%Z ->
    retry_loop env id q max (map Z.of_nat (seq a n)) w
    = retry_loop env id q max' (map Z.of_nat (seq a' n)) w.
Proof.
  induction n as [|n IH]; intros a a' w Hd; [reflexivity|].
  change (map Z.of_nat (seq a (S n))) with (Z.of_nat a :: map Z.of_nat (seq (S a) n)).
  change (map Z.of_nat (seq a' (S n))) with (Z.of_nat a' :: map Z.of_nat (seq (S a') n)).
  rewrite !retry_loop_cons.
  destruct (run_query env _ q) as [e | v]; [|reflexivity].
  cbv zeta. destruct (is_auth_failure e); [|reflexivity].
  replace (Z.of_nat a' <? max')%Z with (Z.of_nat a <? max)%Z.
  2:{ destruct (Z.ltb_spec (Z.of_nat a) max), (Z.ltb_spec (Z.of_nat a') max');
      try reflexivity; lia. }
  destruct (Z.of_nat a <? max)%Z; [|reflexivity].
  destruct (connect env id _) as [[c | e'] w3]; [|reflexivity].
  apply IH. lia.
Qed.

(** C8: for [max_retries >= 0] a run of [execute_with_retry] is a
    [retry_run] with [max_retries] retries left: an execution of the query
    that raises an authentication-class error is followed by one
    invalidation for this secret and, when a retry is left, by [connect]; if
    [connect] returns, the query is executed again, and the rest of the run
    is the run with one retry less from the state [connect] left; an error
    of another class is raised at once, after which nothing is executed,
    invalidated or connected. Hence the events of the run follow
    [retry_shape], there are as many invalidations as authentication
    failures, all for this secret, and no more entries of [connect] than
    that. *)
Theorem retry_on_authentication_failure env id q max w :
  (0 <= max)%Z ->
  exists tr,
    extends w (snd (execute_with_retry env id q max w)) tr /\
    retry_shape id (Z.to_nat max) (retry_view tr) (fst (execute_with_retry env id q max w)) /\
    count is_invalidate tr = count auth_failed tr /\
    (forall o, In (EvInvalidate o) tr -> o = Some id) /\
    (count is_connect tr <= count auth_failed tr)%nat /\
    (forall e, run_query env (count is_query (trace w)) q = inl e ->
               is_auth_failure e = false ->
               execute_with_retry env id q max w = (Raise e, log (EvQuery (Some e)) w)) /\
    retry_run env id q (Z.to_nat max) w
      (fst (execute_with_retry env id q max w))
      (snd (execute_with_retry env id q max w)) /\
    (forall e c w3,
       run_query env (count is_query (trace w)) q = inl e ->
       is_auth_failure e = true ->
       (0 < max)%Z ->
       connect env id (snd (invalidate_cache (Some id) (log (EvQuery (Some e)) w)))
       = (Ok c, w3) ->
       execute_with_retry env id q max w = execute_with_retry env id q (max - 1) w3 /\
       exists o tr',
         trace (snd (execute_with_retry env id q max w)) = trace w3 ++ EvQuery o :: tr').
Proof.
  intros Hmax.
  destruct (execute_with_retry_shape env id q max w Hmax) as (tr & Hext & Hshape).
  exists tr. split; [exact Hext|]. split; [exact Hshape|].
  destruct (retry_shape_counts _ _ _ _ Hshape) as (Hinv & Hid & Hconn).
  rewrite !count_view in Hinv, Hconn.
  2,3,4,5: intros [] He; try discriminate; try reflexivity.
  split; [exact Hinv|]. split; [|split; [exact Hconn|]].
  - intros o Hin. apply Hid. unfold retry_view. apply List.filter_In. by split.
  - assert (Hrun : forall m w0, (0 <= m)%Z ->
              retry_run env id q (Z.to_nat m) w0
                (fst (execute_with_retry env id q m w0))
                (snd (execute_with_retry env id q m w0))).
    { intros m w0 Hm. unfold execute_with_retry, range.
      replace (Z.to_nat (m + 1)) with (S (Z.to_nat m)) by lia.
      apply retry_loop_run. lia. }
    split; [|split; [by apply Hrun|]].
    + intros e He Hauth. unfold execute_with_retry, range.
      replace (Z.to_nat (max + 1)) with (S (Z.to_nat max)) by lia.
      change (map Z.of_nat (seq 0 (S (Z.to_nat max))))
        with (Z.of_nat 0 :: map Z.of_nat (seq 1 (Z.to_nat max))).
      rewrite retry_loop_cons, He. cbv zeta. by rewrite Hauth.
    + intros e c w3 He Hauth Hpos Hconn'.
      assert (Heq : execute_with_retry env id q max w
                    = execute_with_retry env id q (max - 1) w3).
      { unfold execute_with_retry at 1. unfold range.
        replace (Z.to_nat (max + 1)) with (S (Z.to_nat max)) by lia.
        change (map Z.of_nat (seq 0 (S (Z.to_nat max))))
          with (Z.of_nat 0 :: map Z.of_nat (seq 1 (Z.to_nat max))).
        rewrite retry_loop_cons, He. cbv zeta. rewrite Hauth.
        replace (Z.of_nat 0 <? max)%Z with true by (symmetry; apply Z.ltb_lt; lia).
        rewrite Hconn'. unfold execute_with_retry, range.
        replace (Z.to_nat (max - 1 + 1)) with (Z.to_nat max) by lia.
        apply retry_loop_shift. lia. }
      split; [exact Heq|]. rewrite Heq.
      eapply retry_run_first_event. apply Hrun. lia.
Qed.

(** C6, as the code has it: for [max_retries >= 0] the query is executed at
    most [max_retries + 1] times, and a run that has used all of them and
    raises, raises the error of the last execution itself, not an error that
    wraps it. *)
Theorem retry_attempts_bounded env id q max w :
  (0 <= max)%Z ->
  exists tr,
    extends w (snd (execute_with_retry env id q max w)) tr /\
    (Z.of_nat (length (queries tr)) <= max + 1)%Z /\
    (Z.of_nat (length (queries tr)) = (max + 1)%Z ->
     forall e, fst (execute_with_retry env id q max w) = Raise e ->
               last (queries tr) = Some (Some e)).
Proof.
  intros Hmax.
  destruct (execute_with_retry_shape env id q max w Hmax) as (tr & Hext & Hshape).
  exists tr. split; [exact Hext|].
  destruct (retry_shape_bound _ _ _ _ Hshape) as [Hle Hlast].
  rewrite queries_view in Hle, Hlast.
  split; [lia|]. intros Hlen. apply Hlast. lia.
Qed.

(** Three executions fail with a password error, [max_retries] is 2: the
    run raises that error as the database raised it, after three executions,
    and not the "Max retries exceeded" exception. *)
Lemma C6_counterexample :
  fst (execute_with_retry (env_auth 3) "db" "SELECT 1" 2 w_init)
  = Raise (OtherException "OperationalError"
             "FATAL: password authentication failed for user app") /\
  length (queries (trace (snd (execute_with_retry (env_auth 3) "db" "SELECT 1" 2 w_init))))
  = 3%nat.
Proof. split; vm_compute; reflexivity. Qed.

Lemma C6_witness :
  exists tr,
    extends w_init (snd (execute_with_retry (env_auth 3) "db" "SELECT 1" 2 w_init)) tr /\
    (Z.of_nat (length (queries tr)) <= 2 + 1)%Z /\
    (Z.of_nat (length (queries tr)) = (2 + 1)%Z ->
     forall e, fst (execute_with_retry (env_auth 3) "db" "SELECT 1" 2 w_init) = Raise e ->
               last (queries tr) = Some (Some e)).
Proof.
  apply (retry_attempts_bounded (env_auth 3) "db" "SELECT 1" 2 w_init). lia.
Defined.

Lemma C8_witness :
  exists tr,
    extends w_init (snd (execute_with_retry (env_auth 1) "db" "SELECT 1" 2 w_init)) tr /\
    fst (execute_with_retry (env_auth 1) "db" "SELECT 1" 2 w_init)
    = Ok (JObj [("result", JStr "success")]) /\
    count is_invalidate tr = 1%nat /\
    count is_connect tr = 1%nat /\
    length (queries tr) = 2%nat.
Proof.
  destruct (retry_on_authentication_failure (env_auth 1) "db" "SELECT 1" 2 w_init)
    as (tr & Hext & _); [lia|].
  exists tr. split; [exact Hext|].
  vm_compute in Hext. subst tr.
  repeat split; vm_compute; reflexivity.
Defined.

(** The simulated query of the source returns at the first execution. *)
Example execute_with_retry_simulated :
  fst (execute_with_retry env_s1 "s1" "SELECT 1" 2 w_init)
  = Ok (JObj [("result", JStr "success")]) /\
  trace (snd (execute_with_retry env_s1 "s1" "SELECT 1" 2 w_init)) = [EvQuery None].
Proof. split; reflexivity. Qed.

(** ** The source as it is written *)

(** Without a real connection an attempt fails only on credentials that
    are no dict. *)
Lemma try_connect_simulated env credentials version w :
  simulated env ->
  fst (_try_connect env credentials version w) = Ok (is_dict credentials).
Proof.
  intros [Hdb _]. unfold _try_connect, try_except, bind, lift, ret, open_connection.
  destruct credentials; try reflexivity. simpl. by rewrite Hdb.
Qed.

(** X18: with the query of the source, which is simulated and cannot
    fail, [execute_with_retry] with [max_retries >= 0] executes the query
    once and returns its result; nothing is retried, invalidated or
    connected, and the cache is the one before. *)
Lemma execute_with_retry_simulated_run env id q max w :
  simulated env -> (0 <= max)%Z ->
  execute_with_retry env id q max w =
  (Ok (JObj [("result", JStr "success")]), log (EvQuery None) w).
Proof.
  intros [_ Hq] Hmax. unfold execute_with_retry, range.
  replace (Z.to_nat (max + 1)) with (S (Z.to_nat max)) by lia.
  change (map Z.of_nat (seq 0 (S (Z.to_nat max))))
    with (Z.of_nat 0 :: map Z.of_nat (seq 1 (Z.to_nat max))).
  by rewrite retry_loop_cons, Hq.
Qed.

(** ** More on [get_secret] *)

(** The three ways a call ends: answered by the cache; the store called and
    an exception raised; the store called and the fetched value cached. *)
Lemma get_secret_cases env id stage uc w :
  let key := cache_key id stage in
  let w0 := after_check key uc w in
  let w1 := log (EvNet id stage) w0 in
  (exists c, uc = true /\ fresh env key w = Some c /\
             get_secret env id stage uc w = (Ok (value c), log EvTime w)) \/
  (exists e, get_secret env id stage uc w = (Raise e, w1)) \/
  (exists r v,
     remote env (count is_net (trace w)) id stage = Responds r /\
     parse_response env r = Ok v /\
     get_secret env id stage uc w =
     (Ok v,
      set_cache (<[key := {| value := v; version_id := VersionId r;
                             timestamp := clock env (count is_time (trace w1)) |}]>
                   (cache w))
                (log EvTime w1))).
Proof.
  intros key w0 w1.
  assert (Hmiss : uc = false \/ fresh env key w = None ->
    (exists e, get_secret env id stage uc w = (Raise e, w1)) \/
    (exists r v,
       remote env (count is_net (trace w)) id stage = Responds r /\
       parse_response env r = Ok v /\
       get_secret env id stage uc w =
       (Ok v,
        set_cache (<[key := {| value := v; version_id := VersionId r;
                               timestamp := clock env (count is_time (trace w1)) |}]>
                     (cache w))
                  (log EvTime w1)))).
  { intros Hm. rewrite get_secret_miss by exact Hm. cbv zeta. fold key w0 w1.
    destruct (remote env _ id stage) as [r | code msg | cls msg].
    - destruct (parse_response env r) as [v | e] eqn:Hp; [|eauto].
      right. exists r, v. auto.
    - left. apply translate_error_raises.
    - eauto. }
  destruct uc; [|right; auto].
  destruct (fresh_cases env key w) as [[c Hc] | Hn]; [|right; auto].
  left. exists c. split; [reflexivity|]. split; [exact Hc|]. by apply get_secret_hit.
Qed.

Lemma after_check_credentials key uc w :
  current_credentials (after_check key uc w) = current_credentials w.
Proof. unfold after_check. destruct uc; [|done]. by destruct (cache w !! key). Qed.

Lemma after_check_trace key uc w :
  trace (after_check key uc w) = trace w \/ trace (after_check key uc w) = trace w ++ [EvTime].
Proof.
  unfold after_check. destruct uc; [|auto]. destruct (cache w !! key); auto.
Qed.

(** A call changes no binding but the one of its own key, and leaves the
    credentials in use alone. *)
Lemma get_secret_frame env id stage uc w k :
  k <> cache_key id stage ->
  cache (snd (get_secret env id stage uc w)) !! k = cache w !! k /\
  current_credentials (snd (get_secret env id stage uc w)) = current_credentials w.
Proof.
  intros Hk.
  destruct (get_secret_cases env id stage uc w)
    as [(c & _ & _ & ->) | [(e & ->) | (r & v & _ & _ & ->)]]; simpl.
  - auto.
  - by rewrite after_check_cache, after_check_credentials.
  - rewrite lookup_insert_ne by congruence.
    by rewrite after_check_credentials.
Qed.

(** X1: [get_secret] changes the cache at no key but its own: whatever the
    outcome, every binding of another key is the one before the call, and the
    credentials in use are untouched. *)
Theorem get_secret_other_keys env id stage uc w k :
  k <> cache_key id stage ->
  cache (snd (get_secret env id stage uc w)) !! k = cache w !! k /\
  current_credentials (snd (get_secret env id stage uc w)) = current_credentials w.
Proof. apply get_secret_frame. Qed.

Lemma get_secret_other_keys_witness :
  cache (snd (get_secret env_s3 "db" "AWSPENDING" true w_db)) !! cache_key "db" "AWSCURRENT"
  = cache w_db !! cache_key "db" "AWSCURRENT".
Proof.
  apply (get_secret_other_keys env_s3 "db" "AWSPENDING" true w_db
           (cache_key "db" "AWSCURRENT")).
  discriminate.
Defined.

(** X2: with [use_cache=False] the cache is not consulted: the first thing
    the call does is call the store, once, even when the key holds a record
    younger than [cache_ttl]; and a value it returns is bound to the key in
    place of that record. *)
Theorem get_secret_bypasses_cache env id stage w :
  exists tr,
    extends w (snd (get_secret env id stage false w)) (EvNet id stage :: tr) /\
    count is_net tr = 0%nat /\
    forall v, fst (get_secret env id stage false w) = Ok v ->
      exists c, cache (snd (get_secret env id stage false w)) !! cache_key id stage = Some c /\
                value c = v /\
                timestamp c = clock env (count is_time (trace w)).
Proof.
  destruct (get_secret_cases env id stage false w)
    as [(c & [=] & _) | [(e & ->) | (r & v & _ & _ & ->)]]; simpl.
  - exists []. split; [reflexivity|]. split; [reflexivity|]. intros v [=].
  - exists [EvTime]. split; [unfold extends; simpl; same_trace|].
    split; [reflexivity|]. intros v' [= <-].
    eexists. split; [apply lookup_insert_eq|]. split; [reflexivity|]. simpl.
    rewrite count_snoc. simpl. by rewrite Nat.add_0_r.
Qed.

(** X3: a response that carries neither [SecretString] nor [SecretBinary]
    makes the call raise [KeyError('SecretBinary')] as it is (no kind of the
    taxonomy), with the cache as before. *)
Theorem get_secret_empty_response env id stage uc w r :
  uc = false \/ fresh env (cache_key id stage) w = None ->
  remote env (count is_net (trace w)) id stage = Responds r ->
  SecretString r = None -> SecretBinary r = None ->
  fst (get_secret env id stage uc w) = Raise (KeyError "SecretBinary") /\
  kind_of (KeyError "SecretBinary") = None /\
  cache (snd (get_secret env id stage uc w)) = cache w.
Proof.
  intros Hm Hr Hs Hb. rewrite get_secret_miss by exact Hm. cbv zeta.
  rewrite Hr. unfold parse_response. rewrite Hs, Hb. simpl.
  split; [reflexivity|]. split; [reflexivity|]. apply after_check_cache.
Qed.

Lemma get_secret_empty_response_witness :
  fst (get_secret
         (sample_env 1 (store_of (Responds {| SecretString := None; SecretBinary := None;
                                              VersionId := "v1" |}) no_pending))
         "s6" "AWSCURRENT" true w_init)
  = Raise (KeyError "SecretBinary").
Proof.
  apply (get_secret_empty_response
           (sample_env 1 (store_of (Responds {| SecretString := None; SecretBinary := None;
                                                VersionId := "v1" |}) no_pending))
           "s6" "AWSCURRENT" true w_init
           {| SecretString := None; SecretBinary := None; VersionId := "v1" |}
           (or_intror eq_refl) eq_refl eq_refl eq_refl).
Defined.

(** X4: a [cache_ttl] of zero or less switches the cache off for every
    record that is not stamped in the future: the call goes to the store. *)
Theorem get_secret_ttl_nonpositive env id stage w :
  (cache_ttl env <= 0)%Z ->
  (forall c, cache w !! cache_key id stage = Some c ->
             (timestamp c <= clock env (count is_time (trace w)))%Z) ->
  count is_net (trace (snd (get_secret env id stage true w)))
  = S (count is_net (trace w)).
Proof.
  intros Httl Hpast.
  assert (Hf : fresh env (cache_key id stage) w = None).
  { unfold fresh. destruct (cache w !! cache_key id stage) as [c|] eqn:Hc; [|done].
    specialize (Hpast c eq_refl).
    replace (_ <? _)%Z with false; [done|]. symmetry. apply Z.ltb_ge. lia. }
  destruct (get_secret_cases env id stage true w)
    as [(c & _ & Hc & _) | [(e & ->) | (r & v & _ & _ & ->)]]; [congruence | |];
    cbn [snd log set_cache trace]; rewrite ?count_snoc, after_check_net;
    cbn [is_net is_time]; lia.
Qed.

Lemma get_secret_ttl_nonpositive_witness :
  count is_net
    (trace (snd (get_secret
                   {| cache_ttl := 0; clock := fun _ => 1000%Z;
                      remote := store_of (binary_secret "v1") no_pending;
                      json_loads := sample_loads; b64encode := fun _ => "AQID";
                      db_connect := fun _ _ => None;
                      run_query := fun _ _ => inr JNull |}
                   "db" "AWSCURRENT" true w_db)))
  = 1%nat.
Proof.
  apply (get_secret_ttl_nonpositive
           {| cache_ttl := 0; clock := fun _ => 1000%Z;
              remote := store_of (binary_secret "v1") no_pending;
              json_loads := sample_loads; b64encode := fun _ => "AQID";
              db_connect := fun _ _ => None;
              run_query := fun _ _ => inr JNull |}
           "db" "AWSCURRENT" w_db).
  - simpl. lia.
  - intros c Hc. vm_compute in Hc. injection Hc as <-. simpl. lia.
Defined.

(** ** More on the snapshot *)

(** A call that raises has called the store. *)
Lemma get_secret_raise_called env id stage uc w e w' :
  get_secret env id stage uc w = (Raise e, w') ->
  exists tr, extends w w' tr /\ In (EvNet id stage) tr.
Proof.
  destruct (get_secret_cases env id stage uc w)
    as [(c & _ & _ & ->) | [(e' & ->) | (r & v & _ & _ & ->)]]; try discriminate.
  intros [= _ <-].
  destruct (after_check_trace (cache_key id stage) uc w) as [Ht | Ht].
  - exists [EvNet id stage]. split; [|by left].
    unfold extends. cbn [log trace]. by rewrite Ht.
  - exists [EvTime; EvNet id stage]. split; [|right; by left].
    unfold extends. cbn [log trace]. rewrite Ht. same_trace.
Qed.

(** X5: a failed PENDING probe is never remembered: every snapshot with
    [is_rotating = False] comes from a run that called the store for the
    AWSPENDING stage. *)
Theorem snapshot_not_rotating_probes_store env id w snap w' :
  get_both_versions env id w = (Ok snap, w') ->
  is_rotating snap = false ->
  exists tr, extends w w' tr /\ In (EvNet id "AWSPENDING") tr.
Proof.
  rewrite get_both_versions_run.
  destruct (get_secret_extends env id "AWSCURRENT" true w) as (t1 & H1 & _).
  destruct (get_secret env id "AWSCURRENT" true w) as [[cur | e] w1]; [|discriminate].
  simpl in H1.
  destruct (get_secret env id "AWSPENDING" true w1) as [[pen | e] w2] eqn:Hpen.
  - intros [= <- <-]. discriminate.
  - destruct (get_secret_raise_called _ _ _ _ _ _ _ Hpen) as (t2 & H2 & Hin).
    destruct (tolerated e); [|discriminate]. intros [= <- <-] _.
    exists (t1 ++ t2). split; [eapply extends_trans; eauto|].
    apply in_or_app. by right.
Qed.

Lemma snapshot_not_rotating_probes_store_witness :
  exists tr,
    extends w_init (snd (get_both_versions env_s1 "s1" w_init)) tr /\
    In (EvNet "s1" "AWSPENDING") tr.
Proof.
  apply (snapshot_not_rotating_probes_store env_s1 "s1" w_init
           {| current := binary_payload; pending := JNull; is_rotating := false |}
           (snd (get_both_versions env_s1 "s1" w_init)));
    reflexivity.
Defined.

(** X6: when both versions are cached and each is younger than [cache_ttl]
    at the reading taken for it, the snapshot is built from the cache: it is
    rotating, holds the two cached values, and the run reads the clock twice
    and calls the store not at all. *)
Theorem snapshot_from_cache env id w c1 c2 :
  cache w !! cache_key id "AWSCURRENT" = Some c1 ->
  cache w !! cache_key id "AWSPENDING" = Some c2 ->
  (clock env (count is_time (trace w)) - timestamp c1 < cache_ttl env)%Z ->
  (clock env (S (count is_time (trace w))) - timestamp c2 < cache_ttl env)%Z ->
  get_both_versions env id w =
  (Ok {| current := value c1; pending := value c2; is_rotating := true |},
   log EvTime (log EvTime w)) /\
  count is_net (trace (log EvTime (log EvTime w))) = count is_net (trace w).
Proof.
  intros Hc1 Hc2 Hlt1 Hlt2. split.
  - rewrite get_both_versions_run.
    rewrite (get_secret_hit env id "AWSCURRENT" w c1).
    2:{ unfold fresh. rewrite Hc1. by apply Z.ltb_lt in Hlt1 as ->. }
    rewrite (get_secret_hit env id "AWSPENDING" (log EvTime w) c2); [reflexivity|].
    unfold fresh. cbn [log cache trace]. rewrite Hc2, count_snoc. cbn [is_time].
    rewrite Nat.add_1_r. by apply Z.ltb_lt in Hlt2 as ->.
  - cbn [log trace]. rewrite !count_snoc. cbn [is_net]. lia.
Qed.

Lemma snapshot_from_cache_witness :
  get_both_versions env_s3 "db" w_db =
  (Ok {| current := binary_payload; pending := binary_payload; is_rotating := true |},
   log EvTime (log EvTime w_db)).
Proof.
  apply (snapshot_from_cache env_s3 "db" w_db
           {| value := binary_payload; version_id := "v1"; timestamp := 1000 |}
           {| value := binary_payload; version_id := "v2"; timestamp := 1001 |});
    reflexivity.
Defined.

(** ** More on invalidation *)

Lemma startswith_refl s : startswith s s = true.
Proof.
  induction s as [|c s IH]; [reflexivity|]. apply startswith_cons. auto.
Qed.

Lemma invalidate_cache_lookup o w k :
  cache (snd (invalidate_cache o w)) !! k =
  match o with
  | Some (String a p) => if startswith k (String a p) then None else cache w !! k
  | _ => None
  end.
Proof.
  destruct o as [[|a p]|]; cbn [invalidate_cache snd set_cache cache];
    [apply lookup_empty | apply lookup_invalidated | apply lookup_empty].
Qed.

(** X7: after [invalidate_cache(secret_id)] the next [get_secret] for that
    identifier, whatever the stage, finds nothing in the cache: it does not
    read the clock and the first thing it does is call the store. *)
Theorem invalidate_then_fetch env id stage o w :
  o = Some id \/ o = None ->
  exists tr,
    extends (snd (invalidate_cache o w))
            (snd (get_secret env id stage true (snd (invalidate_cache o w))))
            (EvNet id stage :: tr).
Proof.
  intros Ho. set (w1 := snd (invalidate_cache o w)).
  assert (Hnone : cache w1 !! cache_key id stage = None).
  { unfold w1. rewrite invalidate_cache_lookup.
    destruct Ho as [-> | ->]; [|reflexivity].
    destruct id as [|a p]; [reflexivity|].
    replace (startswith (cache_key (String a p) stage) (String a p)) with true; [done|].
    symmetry. apply startswith_cache_key. left. apply startswith_refl. }
  assert (H0 : after_check (cache_key id stage) true w1 = w1).
  { unfold after_check. by rewrite Hnone. }
  destruct (get_secret_cases env id stage true w1)
    as [(c & _ & Hc & _) | [(e & ->) | (r & v & _ & _ & ->)]].
  - unfold fresh in Hc. by rewrite Hnone in Hc.
  - rewrite H0. exists []. reflexivity.
  - rewrite H0. exists [EvTime]. unfold extends. cbn [snd set_cache log trace]. same_trace.
Qed.

Lemma invalidate_then_fetch_witness :
  exists tr,
    extends (snd (invalidate_cache (Some "db") w_db))
            (snd (get_secret env_s3 "db" "AWSCURRENT" true
                    (snd (invalidate_cache (Some "db") w_db))))
            (EvNet "db" "AWSCURRENT" :: tr).
Proof.
  apply (invalidate_then_fetch env_s3 "db" "AWSCURRENT" (Some "db") w_db).
  left. reflexivity.
Defined.

(** X8: [invalidate_cache] only removes: it returns, a binding it leaves is
    one that was there, and doing it again with the same argument changes
    nothing more. *)
Theorem invalidate_cache_idempotent o w :
  fst (invalidate_cache o w) = Ok tt /\
  (forall k e, cache (snd (invalidate_cache o w)) !! k = Some e -> cache w !! k = Some e) /\
  cache (snd (invalidate_cache o (snd (invalidate_cache o w))))
  = cache (snd (invalidate_cache o w)).
Proof.
  split; [by destruct o as [[|a p]|]|]. split.
  - intros k e. rewrite invalidate_cache_lookup.
    destruct o as [[|a p]|]; try discriminate.
    by destruct (startswith k (String a p)).
  - apply map_eq. intros k. rewrite !invalidate_cache_lookup.
    destruct o as [[|a p]|]; try reflexivity.
    by destruct (startswith k (String a p)).
Qed.

(** ** More on the connection *)

Lemma get_secret_credentials env id stage uc w :
  current_credentials (snd (get_secret env id stage uc w)) = current_credentials w.
Proof.
  destruct (get_secret_cases env id stage uc w)
    as [(c & _ & _ & ->) | [(e & ->) | (r & v & _ & _ & ->)]];
    cbn [snd log set_cache current_credentials];
    [reflexivity | apply after_check_credentials | apply after_check_credentials].
Qed.

Lemma get_both_versions_credentials env id w :
  current_credentials (snd (get_both_versions env id w)) = current_credentials w.
Proof.
  rewrite get_both_versions_run.
  pose proof (get_secret_credentials env id "AWSCURRENT" true w) as H1.
  destruct (get_secret env id "AWSCURRENT" true w) as [[cur | e] w1]; [|exact H1].
  pose proof (get_secret_credentials env id "AWSPENDING" true w1) as H2.
  destruct (get_secret env id "AWSPENDING" true w1) as [[pen | e] w2]; simpl in *.
  - congruence.
  - destruct (tolerated e); simpl; congruence.
Qed.

(** [_try_connect] in full: it returns, keeps the cache, and records the
    credentials exactly when it returns [True], which it does only for a
    dict. *)
Lemma try_connect_outcome env credentials version w :
  exists b w',
    _try_connect env credentials version w = (Ok b, w') /\
    cache w' = cache w /\
    (b = true -> is_dict credentials = true /\ current_credentials w' = credentials) /\
    (b = false -> current_credentials w' = current_credentials w).
Proof.
  unfold _try_connect, try_except, bind, lift, ret, open_connection.
  destruct credentials; simpl;
    try (eexists false, _; split; [reflexivity|]; split; [reflexivity|];
         split; [discriminate | reflexivity]).
  destruct (db_connect env _ (JObj d)) as [e|].
  - eexists false, _. split; [reflexivity|]. split; [reflexivity|].
    split; [discriminate | reflexivity].
  - eexists true, _. split; [reflexivity|]. split; [reflexivity|].
    split; [auto | discriminate].
Qed.

(** X9: [_try_connect] never raises, whatever the credentials and whatever
    the connection does. It never touches the cache. It returns [True] only
    for credentials that are a dict, and then they are the credentials in
    use; when it returns [False] the credentials in use are the ones
    before. *)
Theorem try_connect_never_raises env credentials version w :
  exists b w',
    _try_connect env credentials version w = (Ok b, w') /\
    cache w' = cache w /\
    (b = true -> is_dict credentials = true /\ current_credentials w' = credentials) /\
    (b = false -> current_credentials w' = current_credentials w).
Proof. apply try_connect_outcome. Qed.

(** X10: [connect] raises exactly when the snapshot cannot be taken, and
    then raises the same exception; the attempts never change the cache left
    by the snapshot; and unless [connect] returns [True] the credentials in
    use are the ones before the call. *)
Theorem connect_failure_modes env id w :
  (forall e, fst (connect env id w) = Raise e <->
             fst (get_both_versions env id (log EvConnect w)) = Raise e) /\
  cache (snd (connect env id w)) = cache (snd (get_both_versions env id (log EvConnect w))) /\
  (fst (connect env id w) <> Ok true ->
   current_credentials (snd (connect env id w)) = current_credentials w).
Proof.
  pose proof (get_both_versions_credentials env id (log EvConnect w)) as Hcred.
  unfold connect, bind.
  destruct (get_both_versions env id (log EvConnect w)) as [[snap | e] w1];
    [|split; [intros e0; split; intros [= <-]; reflexivity|]; split; [reflexivity|];
      intros _; exact Hcred].
  cbn [snd] in Hcred. cbn [log current_credentials] in Hcred.
  destruct (try_connect_outcome env (current snap) "CURRENT" w1)
    as (c & w2 & -> & Hc1 & _ & Hf1).
  destruct c.
  - split; [split; discriminate|]. split; [exact Hc1|]. intros Hne. by destruct Hne.
  - specialize (Hf1 eq_refl).
    destruct (is_rotating snap && truthy (pending snap)).
    + destruct (try_connect_outcome env (pending snap) "PENDING" w2)
        as (b & w3 & -> & Hc2 & _ & Hf2).
      destruct b.
      * split; [split; discriminate|]. split; [simpl; congruence|].
        intros Hne. by destruct Hne.
      * split; [split; discriminate|]. split; [simpl; congruence|].
        intros _. simpl. rewrite (Hf2 eq_refl). congruence.
    + split; [split; discriminate|]. split; [exact Hc1|].
      intros _. simpl. congruence.
Qed.

(** X11: with the connection of the source, which is simulated and cannot
    fail, [connect] returns [True] exactly when the CURRENT payload is a
    dict, or the snapshot is rotating and its PENDING payload is a non-empty
    dict. *)
Theorem connect_simulated env id w snap w1 :
  simulated env ->
  get_both_versions env id (log EvConnect w) = (Ok snap, w1) ->
  fst (connect env id w) =
  Ok (is_dict (current snap) ||
      (is_rotating snap && truthy (pending snap) && is_dict (pending snap))).
Proof.
  intros Hsim Hsnap. unfold connect, bind. rewrite Hsnap.
  pose proof (try_connect_simulated env (current snap) "CURRENT" w1 Hsim) as H1.
  destruct (_try_connect env (current snap) "CURRENT" w1) as [r1 w2].
  cbn [fst] in H1. subst r1.
  destruct (is_dict (current snap)); [reflexivity|].
  destruct (is_rotating snap && truthy (pending snap)); [|reflexivity].
  pose proof (try_connect_simulated env (pending snap) "PENDING" w2 Hsim) as H2.
  destruct (_try_connect env (pending snap) "PENDING" w2) as [r2 w3].
  cbn [fst] in H2. subst r2.
  by destruct (is_dict (pending snap)).
Qed.

Lemma connect_simulated_witness :
  fst (connect env_s1 "s1" w_init) = Ok true.
Proof.
  apply (connect_simulated env_s1 "s1" w_init
           {| current := binary_payload; pending := JNull; is_rotating := false |}
           (snd (get_both_versions env_s1 "s1" (log EvConnect w_init)))).
  - split; reflexivity.
  - reflexivity.
Defined.

(** ** How many calls leave the process *)

Lemma get_secret_net_bound env id stage uc w :
  (count is_net (trace w) <= count is_net (trace (snd (get_secret env id stage uc w)))
   <= count is_net (trace w) + 1)%nat /\
  count is_db (trace (snd (get_secret env id stage uc w))) = count is_db (trace w).
Proof.
  assert (Hdb : count is_db (trace (after_check (cache_key id stage) uc w))
                = count is_db (trace w)).
  { destruct (after_check_trace (cache_key id stage) uc w) as [-> | ->]; [done|].
    rewrite count_snoc. simpl. lia. }
  destruct (get_secret_cases env id stage uc w)
    as [(c & _ & _ & ->) | [(e & ->) | (r & v & _ & _ & ->)]];
    cbn [snd log set_cache trace]; rewrite ?count_snoc, ?after_check_net, ?Hdb;
    cbn [is_net is_db]; lia.
Qed.

Lemma get_both_versions_net_bound env id w :
  (count is_net (trace w) <= count is_net (trace (snd (get_both_versions env id w)))
   <= count is_net (trace w) + 2)%nat /\
  count is_db (trace (snd (get_both_versions env id w))) = count is_db (trace w).
Proof.
  rewrite get_both_versions_run.
  pose proof (get_secret_net_bound env id "AWSCURRENT" true w) as [H1 D1].
  destruct (get_secret env id "AWSCURRENT" true w) as [[cur | e] w1]; cbn [snd] in *;
    [|split; [lia | exact D1]].
  pose proof (get_secret_net_bound env id "AWSPENDING" true w1) as [H2 D2].
  destruct (get_secret env id "AWSPENDING" true w1) as [[pen | e] w2]; cbn [snd] in *.
  - split; [lia | congruence].
  - destruct (tolerated e); cbn [snd]; (split; [lia | congruence]).
Qed.

Lemma try_connect_net_bound env credentials version w :
  count is_net (trace (snd (_try_connect env credentials version w)))
  = count is_net (trace w) /\
  (count is_db (trace (snd (_try_connect env credentials version w)))
   <= count is_db (trace w) + 1)%nat.
Proof.
  unfold _try_connect, try_except, bind, lift, ret, open_connection.
  destruct (dict_get credentials "username" (JStr "unknown")) as [u | e]; simpl.
  - destruct (db_connect env _ credentials) as [e|]; simpl;
      rewrite !count_snoc; simpl; lia.
  - rewrite !count_snoc; simpl; lia.
Qed.

(** X12: one [get_secret] calls the store at most once, one
    [get_both_versions] at most twice, and one [connect] calls the store at
    most twice and opens at most two downstream connections. *)
Theorem store_calls_bounded env id stage uc w :
  (count is_net (trace (snd (get_secret env id stage uc w)))
   <= count is_net (trace w) + 1)%nat /\
  (count is_net (trace (snd (get_both_versions env id w)))
   <= count is_net (trace w) + 2)%nat /\
  (count is_net (trace (snd (connect env id w))) <= count is_net (trace w) + 2)%nat /\
  (count is_db (trace (snd (connect env id w))) <= count is_db (trace w) + 2)%nat.
Proof.
  split; [apply get_secret_net_bound|]. split; [apply get_both_versions_net_bound|].
  pose proof (get_both_versions_net_bound env id (log EvConnect w)) as [Hn Hd].
  cbn [log trace] in Hn, Hd. rewrite !count_snoc in Hn, Hd. cbn [is_net is_db] in Hn, Hd.
  unfold connect, bind.
  destruct (get_both_versions env id (log EvConnect w)) as [[snap | e] w1]; cbn [snd] in *;
    [|lia].
  pose proof (try_connect_net_bound env (current snap) "CURRENT" w1) as [Hn1 Hd1].
  destruct (try_connect_outcome env (current snap) "CURRENT" w1) as (c & w2 & Hrun1 & _).
  rewrite Hrun1 in *. cbn [snd] in *.
  destruct c; [simpl; lia|].
  destruct (is_rotating snap && truthy (pending snap)); [|simpl; lia].
  pose proof (try_connect_net_bound env (pending snap) "PENDING" w2) as [Hn2 Hd2].
  destruct (try_connect_outcome env (pending snap) "PENDING" w2) as (b & w3 & Hrun2 & _).
  rewrite Hrun2 in *. cbn [snd] in *.
  destruct b; simpl; lia.
Qed.

(** ** More on the retry loop *)

Lemma retry_shape_prefix id budget v r :
  retry_shape id budget v r ->
  queries v <> [] /\
  Forall (fun o => exists e, o = Some e /\ is_auth_failure e = true)
         (removelast (queries v)) /\
  ((exists x, r = Ok x) <-> last (queries v) = Some None).
Proof.
  induction 1 as [b v | b e He | e He | b e e' He | b e tr r He Hs (IH0 & IH1 & IH2)].
  - split; [discriminate|]. split; [constructor|]. simpl. split; eauto.
  - split; [discriminate|]. split; [constructor|]. simpl.
    split; [intros [x [=]] | discriminate].
  - split; [discriminate|]. split; [constructor|]. simpl.
    split; [intros [x [=]] | discriminate].
  - split; [discriminate|]. split; [constructor|]. simpl.
    split; [intros [x [=]] | discriminate].
  - cbn [queries]. destruct (queries tr) as [|o os] eqn:Hq; [by destruct IH0|].
    split; [discriminate|]. split.
    + change (removelast (Some e :: o :: os)) with (Some e :: removelast (o :: os)).
      constructor; eauto.
    + exact IH2.
Qed.

Lemma retry_shape_reconnects id budget v r :
  retry_shape id budget v r ->
  (count is_connect v <= budget)%nat /\ (count is_invalidate v <= S budget)%nat.
Proof.
  induction 1 as [b v | b e He | e He | b e e' He | b e tr r He Hs [IH1 IH2]];
    unfold count in *; simpl in *; lia.
Qed.

(** X13: for [max_retries >= 0], every execution of the query but the last
    one of a run raised an authentication-class error, the run executes the
    query at least once, and it returns a value exactly when its last
    execution returned. *)
Theorem retry_stops_at_first_other_outcome env id q max w :
  (0 <= max)%Z ->
  exists tr,
    extends w (snd (execute_with_retry env id q max w)) tr /\
    queries tr <> [] /\
    Forall (fun o => exists e, o = Some e /\ is_auth_failure e = true)
           (removelast (queries tr)) /\
    ((exists v, fst (execute_with_retry env id q max w) = Ok v) <->
     last (queries tr) = Some None).
Proof.
  intros Hmax.
  destruct (execute_with_retry_shape env id q max w Hmax) as (tr & Hext & Hshape).
  exists tr. split; [exact Hext|].
  pose proof (retry_shape_prefix _ _ _ _ Hshape) as H.
  by rewrite queries_view in H.
Qed.

Lemma retry_stops_at_first_other_outcome_witness :
  exists tr,
    extends w_init (snd (execute_with_retry (env_auth 1) "db" "SELECT 1" 2 w_init)) tr /\
    queries tr <> [] /\
    Forall (fun o => exists e, o = Some e /\ is_auth_failure e = true)
           (removelast (queries tr)) /\
    ((exists v, fst (execute_with_retry (env_auth 1) "db" "SELECT 1" 2 w_init) = Ok v) <->
     last (queries tr) = Some None).
Proof.
  apply (retry_stops_at_first_other_outcome (env_auth 1) "db" "SELECT 1" 2 w_init). lia.
Defined.

(** X14: for [max_retries >= 0] a run enters [connect] at most
    [max_retries] times and invalidates the cache at most [max_retries + 1]
    times. *)
Theorem retry_reconnects_bounded env id q max w :
  (0 <= max)%Z ->
  exists tr,
    extends w (snd (execute_with_retry env id q max w)) tr /\
    (Z.of_nat (count is_connect tr) <= max)%Z /\
    (Z.of_nat (count is_invalidate tr) <= max + 1)%Z.
Proof.
  intros Hmax.
  destruct (execute_with_retry_shape env id q max w Hmax) as (tr & Hext & Hshape).
  exists tr. split; [exact Hext|].
  destruct (retry_shape_reconnects _ _ _ _ Hshape) as [Hc Hi].
  rewrite !count_view in Hc, Hi.
  2,3: intros [] He; try discriminate; reflexivity.
  lia.
Qed.

Lemma retry_reconnects_bounded_witness :
  exists tr,
    extends w_init (snd (execute_with_retry (env_auth 3) "db" "SELECT 1" 2 w_init)) tr /\
    (Z.of_nat (count is_connect tr) <= 2)%Z /\
    (Z.of_nat (count is_invalidate tr) <= 2 + 1)%Z.
Proof.
  apply (retry_reconnects_bounded (env_auth 3) "db" "SELECT 1" 2 w_init). lia.
Defined.

(** ** The substring tests *)

Lemma startswith_append k p : startswith k p = true <-> exists b, k = p +:+ b.
Proof.
  revert k. induction p as [|a p IH]; intros k.
  - rewrite startswith_nil. split; [intros _; by exists k | done].
  - destruct k as [|c k].
    + split; [discriminate | intros [b [=]]].
    + rewrite startswith_cons, IH. split.
      * intros [-> [b ->]]. by exists b.
      * intros [b [= -> ->]]. split; [reflexivity | by exists b].
Qed.

Lemma contains_append pat s :
  contains pat s = true <-> exists a b, s = a +:+ pat +:+ b.
Proof.
  induction s as [|c s IH].
  - cbn [contains]. rewrite orb_false_r.
    change (String.prefix pat "") with (startswith "" pat).
    rewrite startswith_empty. split.
    + intros ->. by exists "", "".
    + intros (a & b & H). destruct a; [|discriminate]. by destruct pat.
  - cbn [contains]. rewrite orb_true_iff, IH.
    change (String.prefix pat (String c s)) with (startswith (String c s) pat).
    rewrite startswith_append. split.
    + intros [[b Hb] | (a & b & ->)].
      * exists "", b. exact Hb.
      * by exists (String c a), b.
    + intros (a & b & H). destruct a as [|c' a].
      * left. by exists b.
      * right. injection H as -> ->. by exists a, b.
Qed.

Lemma lower_ascii_idempotent c : lower_ascii (lower_ascii c) = lower_ascii c.
Proof. destruct c as [[] [] [] [] [] [] [] []]; reflexivity. Qed.

Lemma lower_idempotent s : lower (lower s) = lower s.
Proof.
  induction s as [|c s IH]; [reflexivity|].
  simpl. by rewrite lower_ascii_idempotent, IH.
Qed.

(** The retry test as a substring test on the lower-cased text of the
    exception. *)
Lemma is_auth_failure_substring e :
  (is_auth_failure e = true <->
   (exists a b, lower (exn_str e) = a +:+ "authentication" +:+ b) \/
   (exists a b, lower (exn_str e) = a +:+ "password" +:+ b)) /\
  (forall cls msg,
     is_auth_failure (OtherException cls (lower msg)) = is_auth_failure (OtherException cls msg)).
Proof.
  split.
  - unfold is_auth_failure. by rewrite orb_true_iff, !contains_append.
  - intros cls msg. unfold is_auth_failure. simpl. by rewrite lower_idempotent.
Qed.

(** The same holds for the mark of a rotation in progress: "pending"
    anywhere in the message of an InvalidRequestException, in any case. *)
Example pending_any_case :
  spec_kind "InvalidRequestException" "Version is PENDING rotation" = RotationInProgress /\
  spec_kind "InvalidRequestException" "version is Pending" = RotationInProgress.
Proof. split; reflexivity. Qed.

Lemma cache_key_inj_witness :
  "db" = "db" /\ "AWSPENDING" = "AWSPENDING".
Proof.
  apply (cache_key_inj "db" "AWSPENDING" "db" "AWSPENDING");
    [right; reflexivity | right; reflexivity | reflexivity].
Defined.

Lemma execute_with_retry_negative_witness :
  execute_with_retry env_s1 "s1" "SELECT 1" (-1) w_init
  = (Raise (PlainException "Max retries exceeded"), w_init).
Proof.
  apply (execute_with_retry_negative env_s1 "s1" "SELECT 1" (-1) w_init). lia.
Defined.

Lemma execute_with_retry_simulated_run_witness :
  execute_with_retry env_s1 "s1" "SELECT 1" 2 w_init
  = (Ok (JObj [("result", JStr "success")]), log (EvQuery None) w_init).
Proof.
  apply (execute_with_retry_simulated_run env_s1 "s1" "SELECT 1" 2 w_init);
    [split; reflexivity | lia].
Defined.

(** ** New connections and the demonstration *)

(** The first [connect] of a new connection starts at the store. *)
Lemma connect_fresh_trace env id history :
  exists tr,
    trace (snd (connect env id (new_connection history)))
    = history ++ EvConnect :: EvNet id "AWSCURRENT" :: tr.
Proof.
  set (w0 := log EvConnect (new_connection history)).
  assert (H0 : after_check (cache_key id "AWSCURRENT") true w0 = w0) by reflexivity.
  assert (Hcur : exists t1,
            trace (snd (get_secret env id "AWSCURRENT" true w0))
            = history ++ EvConnect :: EvNet id "AWSCURRENT" :: t1).
  { destruct (get_secret_cases env id "AWSCURRENT" true w0)
      as [(c & _ & Hc & _) | [(e & ->) | (r & v & _ & _ & ->)]].
    - discriminate.
    - rewrite H0. exists []. cbn [snd log trace w0 new_connection]. same_trace.
    - rewrite H0. exists [EvTime]. cbn [snd set_cache log trace w0 new_connection].
      same_trace. }
  destruct Hcur as (t1 & Hcur).
  assert (Hsnap : exists t2,
            trace (snd (get_both_versions env id w0))
            = history ++ EvConnect :: EvNet id "AWSCURRENT" :: t2).
  { rewrite get_both_versions_run.
    destruct (get_secret env id "AWSCURRENT" true w0) as [[cur | e] w1]; cbn [snd] in Hcur;
      [|eauto].
    destruct (get_secret_extends env id "AWSPENDING" true w1) as (t2 & H2 & _).
    destruct (get_secret env id "AWSPENDING" true w1) as [[pen | e] w2]; cbn [snd] in H2.
    - exists (t1 ++ t2). cbn [snd]. rewrite H2, Hcur. same_trace.
    - exists (t1 ++ t2). destruct (tolerated e); cbn [snd]; rewrite H2, Hcur; same_trace. }
  destruct Hsnap as (t2 & Hsnap).
  unfold connect, bind. fold w0.
  destruct (get_both_versions env id w0) as [[snap | e] w1]; cbn [snd] in Hsnap; [|eauto].
  destruct (try_connect_run env (current snap) "CURRENT" w1)
    as (c & w2 & t3 & -> & Hext3 & _).
  destruct c.
  - exists (t2 ++ EvTry "CURRENT" :: t3). cbn [snd ret]. rewrite Hext3, Hsnap. same_trace.
  - destruct (is_rotating snap && truthy (pending snap)).
    + destruct (try_connect_run env (pending snap) "PENDING" w2)
        as (b & w3 & t4 & -> & Hext4 & _).
      exists (t2 ++ (EvTry "CURRENT" :: t3) ++ EvTry "PENDING" :: t4).
      replace (snd _) with w3 by (by destruct b).
      rewrite Hext4, Hext3, Hsnap. same_trace.
    + exists (t2 ++ EvTry "CURRENT" :: t3). cbn [snd ret]. rewrite Hext3, Hsnap. same_trace.
Qed.

(** X19: a [DatabaseConnectionWithRotation] has a client and a cache of its
    own, empty at first: whatever the process has fetched before, the first
    thing its [connect] does is call the store for the AWSCURRENT stage. *)
Theorem new_connection_calls_store env id history :
  exists tr,
    trace (snd (connect env id (new_connection history)))
    = history ++ EvConnect :: EvNet id "AWSCURRENT" :: tr.
Proof. apply connect_fresh_trace. Qed.

Lemma bind_ok {A B} (m : M A) (k : A -> M B) w b w' :
  bind m k w = (Ok b, w') ->
  exists a w1, m w = (Ok a, w1) /\ k a w1 = (Ok b, w').
Proof.
  unfold bind. destruct (m w) as [[a | e] w1]; [eauto | discriminate].
Qed.

(** X20: when [demo] gets as far as building the database connection, its
    own client holds the CURRENT secret in its cache, and the connection,
    which has a cache of its own, still starts by calling the store for
    it. *)
Theorem demo_caches_are_separate env history client db :
  demo env history = (client, Some db) ->
  is_Some (cache client !! cache_key demo_secret_id "AWSCURRENT") /\
  exists tr,
    trace db = trace client ++ EvConnect :: EvNet demo_secret_id "AWSCURRENT" :: tr.
Proof.
  unfold demo.
  destruct (demo_client_steps env (new_connection history)) as [[u | e] w3] eqn:Hsteps;
    [|discriminate].
  intros [= <- <-]. split; [|apply connect_fresh_trace].
  unfold demo_client_steps in Hsteps.
  do 7 (apply bind_ok in Hsteps as (? & ? & _ & Hsteps)).
  apply bind_ok in Hsteps as (v & w2 & Hlast & Hret).
  injection Hret as _ <-.
  destruct (get_secret_caches _ _ _ _ _ _ _ Hlast) as (c & -> & _). eauto.
Qed.

Lemma demo_caches_are_separate_witness :
  exists tr,
    trace (snd (connect env_s1 demo_secret_id
                  (new_connection (trace (fst (demo env_s1 []))))))
    = trace (fst (demo env_s1 [])) ++ EvConnect :: EvNet demo_secret_id "AWSCURRENT" :: tr.
Proof.
  apply (demo_caches_are_separate env_s1 [] (fst (demo env_s1 []))
           (snd (connect env_s1 demo_secret_id
                   (new_connection (trace (fst (demo env_s1 []))))))).
  reflexivity.
Defined.

(** X21: [demo] goes on after its first fetch only when that returns a
    dict: when the fetch raises, or returns any other value, the exception
    is swallowed, the store has been called once, and neither the snapshot
    nor the connection is made. *)
Theorem demo_stops_without_dict env history :
  (forall d, fst (get_secret env demo_secret_id "AWSCURRENT" true (new_connection history))
             <> Ok (JObj d)) ->
  demo env history
  = (snd (get_secret env demo_secret_id "AWSCURRENT" true (new_connection history)), None) /\
  count is_net (trace (fst (demo env history))) = S (count is_net history).
Proof.
  intros Hnd.
  assert (Hdemo : demo env history
    = (snd (get_secret env demo_secret_id "AWSCURRENT" true (new_connection history)), None)).
  { unfold demo, demo_client_steps, bind at 1.
    destruct (get_secret env demo_secret_id "AWSCURRENT" true (new_connection history))
      as [[v | e] w1]; [|reflexivity].
    destruct v; try reflexivity. by destruct (Hnd d). }
  split; [exact Hdemo|]. rewrite Hdemo. cbn [fst].
  assert (H0 : after_check (cache_key demo_secret_id "AWSCURRENT") true (new_connection history)
               = new_connection history) by reflexivity.
  destruct (get_secret_cases env demo_secret_id "AWSCURRENT" true (new_connection history))
    as [(c & _ & Hc & _) | [(e & ->) | (r & v & _ & _ & ->)]]; [discriminate | |];
    rewrite H0; cbn [snd set_cache log trace new_connection];
    rewrite ?count_snoc; cbn [is_net]; lia.
Qed.

Lemma demo_stops_without_dict_witness :
  demo (sample_env 1 (store_of (text_response "[1]" "v1") no_pending)) []
  = (snd (get_secret (sample_env 1 (store_of (text_response "[1]" "v1") no_pending))
            demo_secret_id "AWSCURRENT" true (new_connection [])), None) /\
  count is_net
    (trace (fst (demo (sample_env 1 (store_of (text_response "[1]" "v1") no_pending)) [])))
  = 1%nat.
Proof.
  apply (demo_stops_without_dict
           (sample_env 1 (store_of (text_response "[1]" "v1") no_pending)) []).
  intros d. discriminate.
Defined.

(** ** The cache after the last authentication failure *)

Lemma invalidate_cache_clears_secret id w stage :
  cache (snd (invalidate_cache (Some id) w)) !! cache_key id stage = None.
Proof.
  rewrite invalidate_cache_lookup. destruct id as [|a p]; [reflexivity|].
  replace (startswith (cache_key (String a p) stage) (String a p)) with true; [done|].
  symmetry. apply startswith_cache_key. left. apply startswith_refl.
Qed.

Lemma retry_loop_ends_invalidated env id q max n :
  forall a w,
    (Z.of_nat (a + S n) = max + 1)%Z ->
    (exists o, last (trace (snd (retry_loop env id q max (map Z.of_nat (seq a (S n))) w)))
               = Some (EvInvalidate o)) ->
    forall stage,
      cache (snd (retry_loop env id q max (map Z.of_nat (seq a (S n))) w))
      !! cache_key id stage = None.
Proof.
  induction n as [|n IH]; intros a w Ha.
  - change (map Z.of_nat (seq a 1)) with [Z.of_nat a].
    rewrite retry_loop_cons.
    destruct (run_query env _ q) as [e | v].
    + cbv zeta. destruct (is_auth_failure e).
      * replace (Z.of_nat a <? max)%Z with false by (symmetry; apply Z.ltb_ge; lia).
        intros _ stage. apply invalidate_cache_clears_secret.
      * cbn [snd log trace]. rewrite last_snoc. by intros [o [=]].
    + cbn [snd log trace]. rewrite last_snoc. by intros [o [=]].
  - change (map Z.of_nat (seq a (S (S n))))
      with (Z.of_nat a :: map Z.of_nat (seq (S a) (S n))).
    rewrite retry_loop_cons.
    destruct (run_query env _ q) as [e | v].
    + cbv zeta. destruct (is_auth_failure e).
      * replace (Z.of_nat a <? max)%Z with true by (symmetry; apply Z.ltb_lt; lia).
        set (w2 := snd (invalidate_cache (Some id) (log (EvQuery (Some e)) w))).
        destruct (connect_extends env id w2) as (tc & Hextc & Hallc).
        destruct (connect env id w2) as [[b | e'] w3]; cbn [snd] in Hextc.
        -- apply IH. lia.
        -- cbn [snd]. unfold extends in Hextc. rewrite Hextc, last_app_cons.
           intros [o Hlast]. apply last_Some_elem_of in Hlast.
           apply elem_of_cons in Hlast as [[=] | Hin].
           rewrite Forall_forall in Hallc. by specialize (Hallc _ Hin).
      * cbn [snd log trace]. rewrite last_snoc. by intros [o [=]].
    + cbn [snd log trace]. rewrite last_snoc. by intros [o [=]].
Qed.

(** X22: for [max_retries >= 0], a run of [execute_with_retry] whose last
    act is an invalidation (the run that gives up after an authentication
    failure with no retry left) leaves no entry of this secret in the cache,
    for any stage: the next fetch of the secret goes to the store. *)
Theorem retry_gives_up_with_clean_cache env id q max w :
  (0 <= max)%Z ->
  (exists o, last (trace (snd (execute_with_retry env id q max w))) = Some (EvInvalidate o)) ->
  forall stage,
    cache (snd (execute_with_retry env id q max w)) !! cache_key id stage = None.
Proof.
  intros Hmax. unfold execute_with_retry, range.
  replace (Z.to_nat (max + 1)) with (S (Z.to_nat max)) by lia.
  apply retry_loop_ends_invalidated. lia.
Qed.

Lemma retry_gives_up_with_clean_cache_witness :
  cache (snd (execute_with_retry (env_auth 3) "db" "SELECT 1" 2 w_db))
  !! cache_key "db" "AWSCURRENT" = None.
Proof.
  apply (retry_gives_up_with_clean_cache (env_auth 3) "db" "SELECT 1" 2 w_db).
  - lia.
  - eexists. vm_compute. reflexivity.
Defined.
